(** * wp_chat_analyzer: the transcript parser of [utils.py]

    A shallow embedding of [preprocess_chat] (utils.py, lines 14-78) together
    with the parts of the Python runtime it calls: the three byte codecs, the
    [re] pattern compiler and backtracking matcher, and the pandas column
    operations of the enrichment step. After the parser come
    [identify_group_members] and [identify_chat_type] of utils.py, and
    [get_time_analysis] and [get_emoji_analysis] of analyzer.py with the
    dictionaries and counters they build.

    Python [str] values are sequences of Unicode code points and are modelled
    as [list N]; [bytes] values are [list byte]. *)

From Stdlib Require Import String Ascii.
From Stdlib Require Import Strings.Byte.
From Stdlib Require Import List NArith ZArith Bool Lia Arith Sorted Permutation.
Import ListNotations.

Set Implicit Arguments.
Set Warnings "-notation-for-abbreviation".

(** ** Characters, strings and bytes *)

Notation char := N (only parsing).
Notation str := (list N) (only parsing).
Notation bytes := (list byte) (only parsing).

Definition ch (a : ascii) : char := N_of_ascii a.

(** An ASCII literal of the Python source as a [str]. *)
Fixpoint str_of_string (s : string) : str :=
  match s with
  | EmptyString => []
  | String a s' => ch a :: str_of_string s'
  end.

Definition bytes_of_string (s : string) : bytes := list_byte_of_string s.

Definition LF : char := 10%N.

Definition char_eqb (a b : char) : bool := N.eqb a b.

Fixpoint str_eqb (a b : str) : bool :=
  match a, b with
  | [], [] => true
  | x :: a', y :: b' => char_eqb x y && str_eqb a' b'
  | _, _ => false
  end.

Definition in_range (lo hi c : N) : bool := (N.leb lo c) && (N.leb c hi).

(** [Py_UNICODE_ISSPACE]: the code points for which [str.isspace] holds; used
    by [\s] of [re] on [str] patterns and by [str.strip]. *)
Definition unicode_isspace (c : char) : bool :=
  in_range 9 13 c || in_range 28 32 c || N.eqb c 133 || N.eqb c 160
  || N.eqb c 5760 || in_range 8192 8202 c || N.eqb c 8232 || N.eqb c 8233
  || N.eqb c 8239 || N.eqb c 8287 || N.eqb c 12288.

(** ** Timestamps and the [Series.dt] accessors *)

Record Timestamp := mkTimestamp {
  ts_year : Z; ts_month : Z; ts_day : Z;
  ts_hour : Z; ts_minute : Z; ts_second : Z
}.

Record Date := mkDate { d_year : Z; d_month : Z; d_day : Z }.

Definition is_leap (y : Z) : bool :=
  ((y mod 4 =? 0) && negb (y mod 100 =? 0) || (y mod 400 =? 0))%Z.

Definition days_in_month (y m : Z) : Z :=
  if (m =? 2)%Z then (if is_leap y then 29 else 28)%Z
  else if ((m =? 4) || (m =? 6) || (m =? 9) || (m =? 11))%Z then 30%Z
  else 31%Z.

Definition valid_timestampb (t : Timestamp) : bool :=
  ((1 <=? ts_month t) && (ts_month t <=? 12)
   && (1 <=? ts_day t) && (ts_day t <=? days_in_month (ts_year t) (ts_month t))
   && (0 <=? ts_hour t) && (ts_hour t <=? 23)
   && (0 <=? ts_minute t) && (ts_minute t <=? 59)
   && (0 <=? ts_second t) && (ts_second t <=? 59))%Z.

Definition valid_timestamp (t : Timestamp) : Prop := valid_timestampb t = true.

(** Days since 1970-01-01 of a proleptic Gregorian date. *)
Definition days_from_civil (y m d : Z) : Z :=
  (let y' := if m <=? 2 then y - 1 else y in
   let era := y' / 400 in
   let yoe := y' - era * 400 in
   let mp := (m + 9) mod 12 in
   let doy := (153 * mp + 2) / 5 + d - 1 in
   let doe := yoe * 365 + yoe / 4 - yoe / 100 + doy in
   era * 146097 + doe - 719468)%Z.

(** [Timestamp.weekday()]: Monday is 0. 1970-01-01 was a Thursday. *)
Definition weekday (t : Timestamp) : Z :=
  ((days_from_civil (ts_year t) (ts_month t) (ts_day t) + 3) mod 7)%Z.

Definition DAY_NAMES : list string :=
  ["Monday"; "Tuesday"; "Wednesday"; "Thursday"; "Friday"; "Saturday"; "Sunday"]%string.

Definition MONTH_NAMES : list string :=
  ["January"; "February"; "March"; "April"; "May"; "June"; "July"; "August";
   "September"; "October"; "November"; "December"]%string.

Definition ts_date (t : Timestamp) : Date := mkDate (ts_year t) (ts_month t) (ts_day t).
Definition ts_day_name (t : Timestamp) : string :=
  nth (Z.to_nat (weekday t)) DAY_NAMES EmptyString.
Definition ts_month_name (t : Timestamp) : string :=
  nth (Z.to_nat (ts_month t - 1)) MONTH_NAMES EmptyString.

(** A datetime64 column holds [NaT] where no timestamp is present; every
    [.dt] accessor propagates the missing value. *)
Definition dt_date (v : option Timestamp) : option Date := option_map ts_date v.
Definition dt_day_name (v : option Timestamp) : option string := option_map ts_day_name v.
Definition dt_hour (v : option Timestamp) : option Z := option_map ts_hour v.
Definition dt_month_name (v : option Timestamp) : option string := option_map ts_month_name v.
Definition dt_year (v : option Timestamp) : option Z := option_map ts_year v.

(** ** The installed packages

    Three tables and functions of the Python installation are not part of
    the repository: the Unicode decimal-digit table beyond ASCII (consulted by
    [\d]), the key set of [emoji.EMOJI_DATA], and [pandas.to_datetime] called
    on a whole column with [errors='coerce'] ([None] is [NaT]). They are taken
    as an interface; [to_datetime] returns a column with the index of its
    argument, and only timestamps that exist. *)
Class Platform := {
  unicode_isdecimal_ext : char -> bool;
  EMOJI_DATA : str -> bool;
  to_datetime : list str -> list (option Timestamp);
  to_datetime_length : forall col, length (to_datetime col) = length col;
  to_datetime_valid :
    forall col t, In (Some t) (to_datetime col) -> valid_timestamp t
}.

(** ** Codecs: [bytes.decode] *)

Module Codecs.

Definition cont (b : N) : bool := in_range 128 191 b.

Definition payload (b : N) : N := N.land b 63.

(** The strict UTF-8 decoder: shortest form only, no surrogates, nothing
    above U+10FFFF. [None] is [UnicodeDecodeError]. *)
Fixpoint utf_8_codes (bs : list N) : option str :=
  match bs with
  | [] => Some []
  | b0 :: r0 =>
    if N.ltb b0 128 then option_map (cons b0) (utf_8_codes r0)
    else if in_range 194 223 b0 then
      match r0 with
      | b1 :: r1 =>
        if cont b1
        then option_map (cons (N.lor (N.shiftl (N.land b0 31) 6) (payload b1)))
                        (utf_8_codes r1)
        else None
      | _ => None
      end
    else if in_range 224 239 b0 then
      match r0 with
      | b1 :: b2 :: r2 =>
        let lo := if N.eqb b0 224 then 160%N else 128%N in
        let hi := if N.eqb b0 237 then 159%N else 191%N in
        if in_range lo hi b1 && cont b2
        then option_map
               (cons (N.lor (N.shiftl (N.land b0 15) 12)
                            (N.lor (N.shiftl (payload b1) 6) (payload b2))))
               (utf_8_codes r2)
        else None
      | _ => None
      end
    else if in_range 240 244 b0 then
      match r0 with
      | b1 :: b2 :: b3 :: r3 =>
        let lo := if N.eqb b0 240 then 144%N else 128%N in
        let hi := if N.eqb b0 244 then 143%N else 191%N in
        if in_range lo hi b1 && cont b2 && cont b3
        then option_map
               (cons (N.lor (N.shiftl (N.land b0 7) 18)
                      (N.lor (N.shiftl (payload b1) 12)
                        (N.lor (N.shiftl (payload b2) 6) (payload b3)))))
               (utf_8_codes r3)
        else None
      | _ => None
      end
    else None
  end.

Definition utf_8 (b : bytes) : option str := utf_8_codes (map Byte.to_N b).

(** ['utf-8-sig']: UTF-8 after dropping one leading byte-order mark. *)
Definition utf_8_sig (b : bytes) : option str :=
  match map Byte.to_N b with
  | b0 :: b1 :: b2 :: r =>
    if N.eqb b0 239 && N.eqb b1 187 && N.eqb b2 191
    then utf_8_codes r
    else utf_8_codes (b0 :: b1 :: b2 :: r)
  | bs => utf_8_codes bs
  end.

(** ['latin-1']: every byte is its own code point. *)
Definition latin_1 (b : bytes) : option str := Some (map Byte.to_N b).

End Codecs.

(** ** The [re] module: pattern compiler and backtracking matcher *)

Module Re.

(** *** Parsed patterns (the operators of [sre_parse] used by the program) *)

Inductive category :=
| Category_Digit | Category_Not_Digit | Category_Space | Category_Not_Space.

Inductive set_item :=
| Set_Literal (c : char)
| Set_Range (lo hi : char)
| Set_Category (k : category).

Inductive regex :=
| Literal (c : char)
| Any
| In (negate : bool) (items : list set_item)
| At_End
| Empty
| Concat (a b : regex)
| Branch (a b : regex)
| Max_Repeat (lo : nat) (hi : option nat) (r : regex)
| Min_Repeat (lo : nat) (hi : option nat) (r : regex)
| Subpattern (group : nat) (r : regex)
| Assert (r : regex)
| Assert_Not (r : regex).

(** [PatternError] is the exception [re.error]; [NotModelled] marks syntax
    and corner cases of [re] that this development does not cover (none of
    them is reached by the patterns of the program). *)
Inductive error :=
| PatternError (msg : string) (pos : nat)
| NotModelled.

Definition presult (A : Type) : Type := (error + A)%type.

Definition pbind {A B} (m : presult A) (f : A -> presult B) : presult B :=
  match m with
  | inl e => inl e
  | inr a => f a
  end.

Notation "' p <- m ;; k" := (pbind m (fun p => k))
  (at level 61, p pattern, m at next level, right associativity).

Definition is_ch (a : ascii) (c : char) : bool := N.eqb c (ch a).

Definition is_ascii_digit (c : char) : bool := in_range 48 57 c.
Definition is_ascii_letter (c : char) : bool := in_range 65 90 c || in_range 97 122 c.

Fixpoint take_digits (src : str) : str * str :=
  match src with
  | c :: rest =>
    if is_ascii_digit c
    then let (ds, r) := take_digits rest in (c :: ds, r)
    else ([], src)
  | [] => ([], [])
  end.

Definition int_of_digits (ds : str) : nat :=
  fold_left (fun acc d => 10 * acc + N.to_nat (d - 48)) ds 0.

(** The text after an opening brace, when it is a repeat bound. *)
Definition parse_brace (src : str) : option (str * str * str) :=
  match src with
  | [] => None
  | c :: _ =>
    if is_ch "}" c then None
    else
      let (lo, r1) := take_digits src in
      let '(hi, r2) :=
        match r1 with
        | d :: r1' => if is_ch "," d then take_digits r1' else (lo, r1)
        | [] => (lo, r1)
        end in
      match r2 with
      | e :: r3 => if is_ch "}" e then Some (lo, hi, r3) else None
      | [] => None
      end
  end.

Definition pos_of (total : nat) (src : str) : nat := total - length src.

(** A repeat operator at the head of [src], if there is one. *)
Definition read_quant (total : nat) (src : str)
  : option (presult (nat * option nat * str)) :=
  match src with
  | [] => None
  | c :: rest =>
    if is_ch "*" c then Some (inr (0, None, rest))
    else if is_ch "+" c then Some (inr (1, None, rest))
    else if is_ch "?" c then Some (inr (0, Some 1, rest))
    else if is_ch "{" c then
      match parse_brace rest with
      | None => None
      | Some (lo, hi, rest') =>
        let mn := int_of_digits lo in
        match hi with
        | [] => Some (inr (mn, None, rest'))
        | _ =>
          let mx := int_of_digits hi in
          if mx <? mn
          then Some (inl (PatternError "min repeat greater than max repeat"
                                       (pos_of total rest)))
          else Some (inr (mn, Some mx, rest'))
        end
      end
    else None
  end.

Definition single_char (r : regex) : bool :=
  match r with
  | Literal _ | Any | In _ _ => true
  | _ => false
  end.

Definition is_at (r : regex) : bool :=
  match r with
  | At_End => true
  | _ => false
  end.

(** Items that can match without consuming a character. *)
Fixpoint nullable (r : regex) : bool :=
  match r with
  | Literal _ | Any | In _ _ => false
  | At_End | Empty | Assert _ | Assert_Not _ => true
  | Concat a b => nullable a && nullable b
  | Branch a b => nullable a || nullable b
  | Max_Repeat lo _ a | Min_Repeat lo _ a => (lo =? 0) || nullable a
  | Subpattern _ a => nullable a
  end.

(** The repeat operator that may follow an item. Repeats are modelled over
    items that consume at least one character, unbounded repeats over
    one-character items only. *)
Definition parse_quant (total : nat) (item : regex) (src : str)
  : presult (regex * str) :=
  match read_quant total src with
  | None => inr (item, src)
  | Some (inl e) => inl e
  | Some (inr (lo, hi, rest)) =>
    if is_at item then inl (PatternError "nothing to repeat" (pos_of total src))
    else if nullable item
            || match hi with None => negb (single_char item) | Some _ => false end
    then inl NotModelled
    else
      let '(rep, rest') :=
        match rest with
        | c :: r =>
          if is_ch "?" c then (inr (Min_Repeat lo hi item), r)
          else if is_ch "+" c then (inl NotModelled, r)
          else (inr (Max_Repeat lo hi item), rest)
        | [] => (inr (Max_Repeat lo hi item), rest)
        end in
      ' rep' <- rep ;;
      match read_quant total rest' with
      | Some _ => inl (PatternError "multiple repeat" (pos_of total rest'))
      | None => inr (rep', rest')
      end
  end.

(** The character after a backslash, outside a set. *)
Definition parse_escape (total : nat) (src : str) : presult (regex * str) :=
  match src with
  | [] => inl (PatternError "bad escape (end of pattern)" (pos_of total src - 1))
  | c :: rest =>
    if is_ch "d" c then inr (In false [Set_Category Category_Digit], rest)
    else if is_ch "D" c then inr (In false [Set_Category Category_Not_Digit], rest)
    else if is_ch "s" c then inr (In false [Set_Category Category_Space], rest)
    else if is_ch "S" c then inr (In false [Set_Category Category_Not_Space], rest)
    else if is_ch "n" c then inr (Literal 10, rest)
    else if is_ch "t" c then inr (Literal 9, rest)
    else if is_ch "r" c then inr (Literal 13, rest)
    else if is_ch "f" c then inr (Literal 12, rest)
    else if is_ch "v" c then inr (Literal 11, rest)
    else if is_ch "a" c then inr (Literal 7, rest)
    else if is_ch "w" c || is_ch "W" c || is_ch "b" c || is_ch "B" c || is_ch "A" c || is_ch "Z" c
            || is_ch "x" c || is_ch "u" c || is_ch "U" c || is_ch "N" c || is_ascii_digit c
    then inl NotModelled
    else if is_ascii_letter c
    then inl (PatternError "bad escape" (pos_of total src - 1))
    else inr (Literal c, rest)
  end.

(** The character after a backslash, inside a set. *)
Definition class_escape (total : nat) (src : str) : presult (set_item * str) :=
  match src with
  | [] => inl (PatternError "unterminated character set" (pos_of total src))
  | c :: rest =>
    if is_ch "d" c then inr (Set_Category Category_Digit, rest)
    else if is_ch "D" c then inr (Set_Category Category_Not_Digit, rest)
    else if is_ch "s" c then inr (Set_Category Category_Space, rest)
    else if is_ch "S" c then inr (Set_Category Category_Not_Space, rest)
    else if is_ch "n" c then inr (Set_Literal 10, rest)
    else if is_ch "t" c then inr (Set_Literal 9, rest)
    else if is_ch "r" c then inr (Set_Literal 13, rest)
    else if is_ch "f" c then inr (Set_Literal 12, rest)
    else if is_ch "v" c then inr (Set_Literal 11, rest)
    else if is_ch "a" c then inr (Set_Literal 7, rest)
    else if is_ch "b" c then inr (Set_Literal 8, rest)
    else if is_ch "w" c || is_ch "W" c || is_ch "x" c || is_ch "u" c || is_ch "U" c
            || is_ch "N" c || is_ascii_digit c
    then inl NotModelled
    else if is_ascii_letter c
    then inl (PatternError "bad escape" (pos_of total src - 1))
    else inr (Set_Literal c, rest)
  end.

Definition set_atom (total : nat) (c : char) (rest : str)
  : presult (set_item * str) :=
  if is_ch "\" c then class_escape total rest else inr (Set_Literal c, rest).

(** The items of a set, up to and including the closing bracket. *)
Fixpoint parse_set_items (fuel total : nat) (src : str) (first : bool)
         (acc : list set_item) : presult (list set_item * str) :=
  match fuel with
  | 0 => inl NotModelled
  | S f =>
    match src with
    | [] => inl (PatternError "unterminated character set" (pos_of total src))
    | c :: rest =>
      if is_ch "]" c && negb first then inr (rev acc, rest)
      else
        ' (item1, rest1) <- set_atom total c rest ;;
        match rest1 with
        | [] => inl (PatternError "unterminated character set" (pos_of total rest1))
        | d :: rest2 =>
          if is_ch "-" d then
            match rest2 with
            | [] => inl (PatternError "unterminated character set"
                                      (pos_of total rest2))
            | e :: rest3 =>
              if is_ch "]" e
              then inr (rev (Set_Literal (ch "-") :: item1 :: acc), rest3)
              else
                ' (item2, rest4) <- set_atom total e rest3 ;;
                match item1, item2 with
                | Set_Literal lo, Set_Literal hi =>
                  if N.ltb hi lo
                  then inl (PatternError "bad character range" (pos_of total rest))
                  else parse_set_items f total rest4 false (Set_Range lo hi :: acc)
                | _, _ => inl (PatternError "bad character range" (pos_of total rest))
                end
            end
          else parse_set_items f total rest1 false (item1 :: acc)
        end
    end
  end.

Definition parse_set (total : nat) (src : str) : presult (regex * str) :=
  let '(negate, src') :=
    match src with
    | c :: rest => if is_ch "^" c then (true, rest) else (false, src)
    | [] => (false, src)
    end in
  ' (items, rest) <- parse_set_items (S (length src')) total src' true [] ;;
  inr (In negate items, rest).

(** The recursive descent of [sre_parse]: alternatives, sequences and items.
    [g] is the number of the next capturing group, handed out at its opening
    parenthesis. All three stop in front of a closing parenthesis. *)
Fixpoint parse_sub (fuel total : nat) (src : str) (g : nat)
  : presult (regex * str * nat) :=
  match fuel with
  | 0 => inl NotModelled
  | S f =>
    ' (r, src1, g1) <- parse_seq f total src g ;;
    match src1 with
    | c :: rest =>
      if is_ch "|" c
      then ' (r2, src2, g2) <- parse_sub f total rest g1 ;;
           inr (Branch r r2, src2, g2)
      else inr (r, src1, g1)
    | [] => inr (r, src1, g1)
    end
  end

with parse_seq (fuel total : nat) (src : str) (g : nat)
  : presult (regex * str * nat) :=
  match fuel with
  | 0 => inl NotModelled
  | S f =>
    match src with
    | [] => inr (Empty, src, g)
    | c :: _ =>
      if is_ch "|" c || is_ch ")" c then inr (Empty, src, g)
      else
        ' (item, src1, g1) <- parse_item f total src g ;;
        ' (item', src2) <- parse_quant total item src1 ;;
        ' (tail, src3, g3) <- parse_seq f total src2 g1 ;;
        inr (Concat item' tail, src3, g3)
    end
  end

with parse_item (fuel total : nat) (src : str) (g : nat)
  : presult (regex * str * nat) :=
  match fuel with
  | 0 => inl NotModelled
  | S f =>
    match src with
    | [] => inl NotModelled
    | c :: rest =>
      if is_ch "(" c then
        let close (r : regex) (src' : str) (g' : nat) :=
          match src' with
          | d :: rest' =>
            if is_ch ")" d then inr (r, rest', g')
            else inl (PatternError "missing ), unterminated subpattern"
                                   (pos_of total src))
          | [] => inl (PatternError "missing ), unterminated subpattern"
                                    (pos_of total src))
          end in
        match rest with
        | q :: k :: body =>
          if is_ch "?" q then
            if is_ch ":" k then
              ' (r, src', g') <- parse_sub f total body g ;;
              close r src' g'
            else if is_ch "=" k then
              ' (r, src', g') <- parse_sub f total body g ;;
              close (Assert r) src' g'
            else if is_ch "!" k then
              ' (r, src', g') <- parse_sub f total body g ;;
              close (Assert_Not r) src' g'
            else inl NotModelled
          else
            ' (r, src', g') <- parse_sub f total rest (S g) ;;
            close (Subpattern g r) src' g'
        | [q] =>
          if is_ch "?" q
          then inl (PatternError "unexpected end of pattern" (pos_of total []))
          else
            ' (r, src', g') <- parse_sub f total rest (S g) ;;
            close (Subpattern g r) src' g'
        | [] => inl (PatternError "missing ), unterminated subpattern"
                                  (pos_of total src))
        end
      else if is_ch "[" c then
        ' (r, src') <- parse_set total rest ;; inr (r, src', g)
      else if is_ch "." c then inr (Any, rest, g)
      else if is_ch "$" c then inr (At_End, rest, g)
      else if is_ch "^" c then inl NotModelled
      else if is_ch "\" c then
        ' (r, src') <- parse_escape total rest ;; inr (r, src', g)
      else
        match read_quant total src with
        | Some (inl e) => inl e
        | Some (inr _) => inl (PatternError "nothing to repeat" (pos_of total src))
        | None => inr (Literal c, rest, g)
        end
    end
  end.

Record flags := mkFlags { IGNORECASE : bool; DOTALL : bool }.

Definition no_flags : flags := mkFlags false false.

Record Pattern := mkPattern {
  pat_regex : regex;
  pat_groups : nat;
  pat_flags : flags
}.

(** Sets and non-ASCII literals: their case-insensitive matching needs the
    case tables of the Unicode database. *)
Fixpoint beyond_ascii_literals (r : regex) : bool :=
  match r with
  | In _ _ => true
  | Literal c => negb (N.ltb c 128)
  | Any | At_End | Empty => false
  | Concat a b | Branch a b => beyond_ascii_literals a || beyond_ascii_literals b
  | Max_Repeat _ _ a | Min_Repeat _ _ a | Subpattern _ a
  | Assert a | Assert_Not a => beyond_ascii_literals a
  end.

(** [sre_parse.parse]: whatever is left after the top-level alternatives is
    a closing parenthesis nobody opened. Case-insensitive matching is
    modelled for patterns made of ASCII literals only. *)
Definition compile (pattern : str) (fl : flags) : presult Pattern :=
  let total := length pattern in
  ' (r, rest, g) <- parse_sub (4 * total + 8) total pattern 1 ;;
  match rest with
  | _ :: _ => inl (PatternError "unbalanced parenthesis" (pos_of total rest))
  | [] =>
    if IGNORECASE fl && beyond_ascii_literals r then inl NotModelled
    else inr (mkPattern r (g - 1) fl)
  end.

(** *** Matching *)

(** Group contents, latest binding first. *)
Notation caps := (list (nat * list N)) (only parsing).

Section Matcher.

Context {P : Platform}.

(** [Py_UNICODE_ISDECIMAL]. *)
Definition unicode_isdecimal (c : char) : bool :=
  if N.ltb c 128 then is_ascii_digit c else unicode_isdecimal_ext c.

Definition category_mem (k : category) (c : char) : bool :=
  match k with
  | Category_Digit => unicode_isdecimal c
  | Category_Not_Digit => negb (unicode_isdecimal c)
  | Category_Space => unicode_isspace c
  | Category_Not_Space => negb (unicode_isspace c)
  end.

Definition item_mem (c : char) (it : set_item) : bool :=
  match it with
  | Set_Literal x => N.eqb c x
  | Set_Range lo hi => in_range lo hi c
  | Set_Category k => category_mem k c
  end.

(** [sre_lower_unicode] on the code points whose lower case is an ASCII
    letter (A-Z, U+0130, U+212A); elsewhere the result is never an ASCII
    letter, and is left as it is. *)
Definition lower (c : char) : char :=
  if in_range 65 90 c then c + 32
  else if N.eqb c 304 then 105
  else if N.eqb c 8490 then 107
  else c.

(** The extra equivalents that [sre_compile] adds to a lower-case literal:
    dotless i for i, long s for s. *)
Definition ignorecase_fixes (lo : char) : list char :=
  if N.eqb lo 105 then [305%N]
  else if N.eqb lo 115 then [383%N]
  else [].

(** A pattern literal [x] against a character [y] of the text. *)
Definition literal_eq (fl : flags) (x y : char) : bool :=
  if IGNORECASE fl
  then let lo := lower x in
       N.eqb (lower y) lo || existsb (N.eqb (lower y)) (ignorecase_fixes lo)
  else N.eqb y x.


Definition group (c : caps) (g : nat) : str :=
  match find (fun p => fst p =? g) c with
  | Some p => snd p
  | None => []
  end.

(** The text between a position [s] and a later position [s']. *)
Definition taken (s s' : str) : str := firstn (length s - length s') s.

(** All the ways of repeating [step] between [lo] and [budget] times, in the
    order the backtracking engine tries them. *)
Fixpoint repeat_ms (step : str -> caps -> list (str * caps)) (greedy : bool)
         (lo budget : nat) (s : str) (c : caps) : list (str * caps) :=
  match budget with
  | 0 => if lo =? 0 then [(s, c)] else []
  | S b =>
    let more :=
      flat_map (fun p => repeat_ms step greedy (pred lo) b (fst p) (snd p))
               (step s c) in
    if 0 <? lo then more
    else if greedy then more ++ [(s, c)]
    else (s, c) :: more
  end.

Definition bound (lo : nat) (hi : option nat) (s : str) : nat :=
  match hi with
  | Some h => h
  | None => lo + length s
  end.

(** [ms fl r s c]: every way [r] matches a prefix of [s], as the remaining
    text and the groups, most preferred first. The engine's answer is the
    head of the list. *)
Fixpoint ms (fl : flags) (r : regex) (s : str) (c : caps) {struct r}
  : list (str * caps) :=
  match r with
  | Literal x =>
    match s with
    | y :: s' => if literal_eq fl x y then [(s', c)] else []
    | [] => []
    end
  | Any =>
    match s with
    | y :: s' => if DOTALL fl || negb (N.eqb y LF) then [(s', c)] else []
    | [] => []
    end
  | In negate items =>
    match s with
    | y :: s' => if xorb negate (existsb (item_mem y) items) then [(s', c)] else []
    | [] => []
    end
  | At_End =>
    match s with
    | [] => [(s, c)]
    | [y] => if N.eqb y LF then [(s, c)] else []
    | _ => []
    end
  | Empty => [(s, c)]
  | Concat a b => flat_map (fun p => ms fl b (fst p) (snd p)) (ms fl a s c)
  | Branch a b => ms fl a s c ++ ms fl b s c
  | Max_Repeat lo hi a => repeat_ms (ms fl a) true lo (bound lo hi s) s c
  | Min_Repeat lo hi a => repeat_ms (ms fl a) false lo (bound lo hi s) s c
  | Subpattern g a =>
    map (fun p => (fst p, (g, taken s (fst p)) :: snd p)) (ms fl a s c)
  | Assert a =>
    match ms fl a s c with
    | [] => []
    | p :: _ => [(s, snd p)]
    end
  | Assert_Not a =>
    match ms fl a s c with
    | [] => [(s, c)]
    | _ => []
    end
  end.

(** The first match of the pattern at the head of [s]. *)
Definition match_at (p : Pattern) (s : str) : option (str * caps) :=
  hd_error (ms (pat_flags p) (pat_regex p) s []).

(** [Pattern.search]: the leftmost position with a match; the result is the
    text from that position, the text after the match, and the groups. *)
Fixpoint search (p : Pattern) (s : str) : option (str * str * caps) :=
  match match_at p s with
  | Some (rest, c) => Some (s, rest, c)
  | None =>
    match s with
    | [] => None
    | _ :: s' => search p s'
    end
  end.

(** What [findall] reports for one match: the groups when the pattern has
    any, the whole match otherwise. *)
Definition match_groups (p : Pattern) (start rest : str) (c : caps) : list str :=
  match pat_groups p with
  | 0 => [taken start rest]
  | n => map (group c) (seq 1 n)
  end.

(** [Pattern.findall]: successive non-overlapping matches, left to right.
    Matches of the empty string are not modelled. *)
Fixpoint findall_loop (fuel : nat) (p : Pattern) (s : str)
  : presult (list (list str)) :=
  match fuel with
  | 0 => inl NotModelled
  | S f =>
    match search p s with
    | None => inr []
    | Some (start, rest, c) =>
      if length rest <? length start
      then ' more <- findall_loop f p rest ;;
           inr (match_groups p start rest c :: more)
      else inl NotModelled
    end
  end.

Definition pattern_findall (p : Pattern) (s : str) : presult (list (list str)) :=
  findall_loop (S (length s)) p s.

(** [re.findall(pattern, string, flags)]. *)
Definition findall (pattern : str) (s : str) (fl : flags)
  : presult (list (list str)) :=
  ' p <- compile pattern fl ;; pattern_findall p s.

End Matcher.

End Re.

(** ** Exceptions and the call log

    A computation yields the list of codec and [re.findall] calls it made,
    and either a value or the exception that ended it. *)

Inductive exn :=
| re_error (msg : string) (pos : nat)
| UnicodeDecodeError (codec : string)
| ValueError
| NotModelledError.

Inductive event :=
| Decode (codec : string)
| Findall (pattern : string).

Definition M (A : Type) : Type := (list event * (exn + A))%type.

Definition ret {A} (a : A) : M A := ([], inr a).

Definition raise {A} (e : exn) : M A := ([], inl e).

Definition call (ev : event) : M unit := ([ev], inr tt).

Definition bind {A B} (m : M A) (f : A -> M B) : M B :=
  match m with
  | (l, inl e) => (l, inl e)
  | (l, inr a) => let (l', r) := f a in (l ++ l', r)
  end.

(** [try: m  except <handles>: handler]. *)
Definition try_except {A} (m : M A) (handles : exn -> bool) (handler : M A) : M A :=
  match m with
  | (l, inl e) =>
    if handles e then let (l', r) := handler in (l ++ l', r) else (l, inl e)
  | ok => ok
  end.

Declare Scope py_scope.
Delimit Scope py_scope with py.
Notation "x <- m ;; k" := (bind m (fun x => k))
  (at level 61, m at next level, right associativity) : py_scope.
Notation "m ;; k" := (bind m (fun _ => k))
  (at level 61, right associativity) : py_scope.
Open Scope py_scope.

(** What the caller of a computation sees. *)
Definition outcome {A} (m : M A) : exn + A := snd m.
Definition calls {A} (m : M A) : list event := fst m.

(** ** utils.py *)

(** One row of the frame [preprocess_chat] returns. A column can hold a
    missing value where pandas allows one ([NaT], [NaN]). *)
Record MessageRecord := mkRecord {
  timestamp : option Timestamp;
  user : str;
  message : str;
  has_media : bool;
  has_url : bool;
  emojis : list char;
  emoji_count : nat;
  message_length : nat;
  date : option Date;
  day : option string;
  hour : option Z;
  month : option string;
  year : option Z
}.

Definition DataFrame := list MessageRecord.

Section Utils.

Context {P : Platform}.

(** Line 34. *)
Definition pattern : string :=
  "(\d{1,2}/\d{1,2}/\d{2,4},\s\d{1,2}:\d{2}(?::\d{2})?\s[APap][Mm])\s-\s(.*?):\s(.*?)(?=\n\d{1,2}/\d{1,2}/\d{2,4},\s\d{1,2}:\d{2}(?::\d{2})?\s[APap][Mm]\s-\s|$)".

(** Line 39. *)
Definition pattern_alt : string :=
  "(\d{1,2}/\d{1,2}/\d{2,4},\s\d{1,2}:\d{2}(?::\d{2})?)\s-\s(.*?):\s(.*?)(?=\n\d{1,2}/\d{1,2}/\d{2,4},\s\d{1,2}:\d{2}(?::\d{2})?)\s-\s|$)".

(** Line 55. *)
Definition media_pattern : string :=
  "<Media omitted>|image omitted|video omitted|sticker omitted".

(** Line 58. *)
Definition url_pattern : string :=
  "(https?://[^\s]+)".

Definition is_UnicodeDecodeError (e : exn) : bool :=
  match e with
  | UnicodeDecodeError _ => true
  | _ => false
  end.

(** [file_upload.getvalue().decode(codec)]. *)
Definition decode (codec : string) (dec : bytes -> option str) (raw : bytes) : M str :=
  call (Decode codec) ;;
  match dec raw with
  | Some content => ret content
  | None => raise (UnicodeDecodeError codec)
  end.

(** Lines 22-31. [None] stands for the [return None] of line 31. *)
Definition read_content (raw : bytes) : M (option str) :=
  try_except
    (content <- decode "utf-8" Codecs.utf_8 raw ;; ret (Some content))
    is_UnicodeDecodeError
    (try_except
       (content <- decode "utf-8-sig" Codecs.utf_8_sig raw ;; ret (Some content))
       is_UnicodeDecodeError
       (try_except
          (content <- decode "latin-1" Codecs.latin_1 raw ;; ret (Some content))
          (fun _ => true)
          (ret None))).

Definition lift_re {A} (r : Re.presult A) : M A :=
  match r with
  | inr a => ret a
  | inl (Re.PatternError msg pos) => raise (re_error msg pos)
  | inl Re.NotModelled => raise NotModelledError
  end.

(** [re.findall(pattern, content, re.DOTALL)]. *)
Definition re_findall (pat : string) (content : str) : M (list (list str)) :=
  call (Findall pat) ;;
  lift_re (Re.findall (str_of_string pat) content (Re.mkFlags false true)).

(** [Series.str.contains(pat, case=...)]: the pattern is compiled once and
    searched for in every element. *)
Definition str_contains (col : list str) (pat : string) (case : bool) : M (list bool) :=
  p <- lift_re (Re.compile (str_of_string pat) (Re.mkFlags (negb case) false)) ;;
  ret (map (fun s => match Re.search p s with Some _ => true | None => false end) col).

(** [pd.DataFrame(matches, columns=['timestamp', 'user', 'message'])]. *)
Fixpoint frame_of_matches (matches : list (list str)) : M (list (str * str * str)) :=
  match matches with
  | [] => ret []
  | [t; u; m] :: rest =>
    rows <- frame_of_matches rest ;; ret ((t, u, m) :: rows)
  | _ :: _ => raise ValueError
  end.

(** Line 49: the timestamp column is replaced by its conversion. *)
Definition convert_timestamps (df : list (str * str * str))
  : list (option Timestamp * str * str) :=
  combine (combine (to_datetime (map (fun r => fst (fst r)) df))
                   (map (fun r => snd (fst r)) df))
          (map snd df).

(** Line 52: [df.dropna(subset=['timestamp'])]. *)
Definition dropna (df : list (option Timestamp * str * str))
  : list (option Timestamp * str * str) :=
  filter (fun r => match fst (fst r) with Some _ => true | None => false end) df.

(** Line 62: [[c for c in text if c in emoji.EMOJI_DATA]]. *)
Definition extract_emojis (text : str) : list char :=
  filter (fun c => EMOJI_DATA [c]) text.

(** [str.strip()]. *)
Fixpoint lstrip (s : str) : str :=
  match s with
  | c :: s' => if unicode_isspace c then lstrip s' else s
  | [] => []
  end.

Definition strip (s : str) : str := rev (lstrip (rev (lstrip s))).

(** Lines 55-76, one row at a time; the two [str.contains] columns are
    computed beforehand. *)
Definition enrich (r : option Timestamp * str * str) (media url : bool) : MessageRecord :=
  let '(ts, u, m) := r in
  let es := extract_emojis m in
  {| timestamp := ts;
     user := strip u;
     message := m;
     has_media := media;
     has_url := url;
     emojis := es;
     emoji_count := length es;
     message_length := length m;
     date := dt_date ts;
     day := dt_day_name ts;
     hour := dt_hour ts;
     month := dt_month_name ts;
     year := dt_year ts |}.

Fixpoint assemble (df : list (option Timestamp * str * str)) (media url : list bool)
  : DataFrame :=
  match df, media, url with
  | r :: df', hm :: media', hu :: url' => enrich r hm hu :: assemble df' media' url'
  | _, _, _ => []
  end.

Definition is_empty {A} (l : list A) : bool :=
  match l with
  | [] => true
  | _ => false
  end.

(** [preprocess_chat(file_upload)]: the upload is absent ([None]) or an
    object whose [getvalue()] is a byte string. *)
Definition preprocess_chat (file_upload : option bytes) : M (option DataFrame) :=
  match file_upload with
  | None => ret None
  | Some raw =>
    read <- read_content raw ;;
    match read with
    | None => ret None
    | Some content =>
      matches <- re_findall pattern content ;;
      matches <- (if is_empty matches
                  then re_findall pattern_alt content
                  else ret matches) ;;
      if is_empty matches then ret None
      else
        df <- frame_of_matches matches ;;
        let df := dropna (convert_timestamps df) in
        media <- str_contains (map snd df) media_pattern false ;;
        url <- str_contains (map snd df) url_pattern true ;;
        ret (Some (assemble df media url))
    end
  end.

End Utils.

(** ** The patterns of the program, parsed *)

Module Patterns.

Import Re.

(** A sequence of items, as the parser nests it. *)
Definition seq_of (items : list regex) : regex := fold_right Concat Empty items.

(** A run of literals. *)
Definition lits (s : string) : regex := seq_of (map Literal (str_of_string s)).

Definition digit : regex := In false [Set_Category Category_Digit].
Definition space : regex := In false [Set_Category Category_Space].
Definition digits (lo hi : nat) : regex := Max_Repeat lo (Some hi) digit.
Definition one_of (s : string) : regex := In false (map Set_Literal (str_of_string s)).

(** [\d{1,2}/\d{1,2}/\d{2,4},\s\d{1,2}:\d{2}(?::\d{2})?\s[APap][Mm]] *)
Definition stamp_items : list regex :=
  [ digits 1 2; Literal (ch "/"); digits 1 2; Literal (ch "/"); digits 2 4;
    Literal (ch ","); space; digits 1 2; Literal (ch ":"); digits 2 2;
    Max_Repeat 0 (Some 1) (seq_of [Literal (ch ":"); digits 2 2]);
    space; one_of "APap"; one_of "Mm" ].

(** [\s-\s] *)
Definition dash_items : list regex := [ space; Literal (ch "-"); space ].

(** [.*?] under [re.DOTALL] *)
Definition lazy_any : regex := Min_Repeat 0 None Any.

(** The first alternative of the lookahead: a line break and the prefix of
    the next message. *)
Definition boundary : regex := seq_of (Literal LF :: stamp_items ++ dash_items).

Definition lookahead : regex := Assert (Branch boundary (seq_of [At_End])).

Definition primary_regex : regex :=
  seq_of ([ Subpattern 1 (seq_of stamp_items) ] ++ dash_items ++
          [ Subpattern 2 (seq_of [lazy_any]); Literal (ch ":"); space;
            Subpattern 3 (seq_of [lazy_any]); lookahead ]).

Definition dotall : flags := mkFlags false true.

Definition PRIMARY : Pattern := mkPattern primary_regex 3 dotall.

Definition media_regex : regex :=
  Branch (lits "<Media omitted>")
    (Branch (lits "image omitted")
      (Branch (lits "video omitted") (lits "sticker omitted"))).

Definition MEDIA : Pattern := mkPattern media_regex 0 (mkFlags true false).

Definition url_regex : regex :=
  seq_of [ Subpattern 1
             (seq_of (map Literal (str_of_string "http") ++
                      [ Max_Repeat 0 (Some 1) (Literal (ch "s")) ] ++
                      map Literal (str_of_string "://") ++
                      [ Max_Repeat 1 None (In true [Set_Category Category_Space]) ])) ].

Definition URL : Pattern := mkPattern url_regex 1 no_flags.

End Patterns.

(** ** What the parser computes, stated directly *)

Section Direct.

Context {P : Platform}.

(** The text [read_content] hands on: UTF-8 when the bytes are UTF-8,
    Latin-1 otherwise. *)
Definition decoded (raw : bytes) : str :=
  match Codecs.utf_8 raw with
  | Some content => content
  | None => map Byte.to_N raw
  end.

Definition found (p : Re.Pattern) (s : str) : bool :=
  match Re.search p s with
  | Some _ => true
  | None => false
  end.

(** The row built from one converted block. *)
Definition record_of (r : option Timestamp * str * str) : MessageRecord :=
  enrich r (found Patterns.MEDIA (snd r)) (found Patterns.URL (snd r)).

Definition triple_of (m : list str) : str * str * str :=
  (nth 0 m [], nth 1 m [], nth 2 m []).

(** The frame built from the blocks the primary pattern finds. *)
Definition frame_of (matches : list (list str)) : DataFrame :=
  map record_of (dropna (convert_timestamps (map triple_of matches))).

(** Everything after decoding, as a function of the decoded text. *)
Definition parse (content : str) : exn + option DataFrame :=
  match Re.pattern_findall Patterns.PRIMARY content with
  | inr [] => inl (re_error "unbalanced parenthesis" 133)
  | inr matches => inr (Some (frame_of matches))
  | inl _ => inl NotModelledError
  end.

(** A timestamp followed by [" - "] at the head of [s]: the prefix of a
    message, as the lookahead of the pattern recognises it after a line
    break. *)
Definition starts_message (s : str) : bool :=
  negb (is_empty (Re.ms Patterns.dotall
                        (Patterns.seq_of (Patterns.stamp_items ++ Patterns.dash_items))
                        s [])).

(** The codecs tried on an upload, in order. *)
Definition decode_calls (raw : bytes) : list event :=
  match Codecs.utf_8 raw with
  | Some _ => [Decode "utf-8"]
  | None => [Decode "utf-8"; Decode "utf-8-sig"; Decode "latin-1"]
  end.

(** The calls [preprocess_chat] makes on an upload. *)
Definition calls_on (raw : bytes) : list event :=
  decode_calls raw ++ Findall pattern ::
  match Re.pattern_findall Patterns.PRIMARY (decoded raw) with
  | inr [] => [Findall pattern_alt]
  | _ => []
  end.

(** The lookahead of the pattern holds at [s]: the next message starts after
    a line break, or the text ends, possibly with one last line break. *)
Definition lookahead_at (s : str) : bool :=
  negb (is_empty (Re.ms Patterns.dotall
                        (Re.Branch Patterns.boundary (Patterns.seq_of [Re.At_End]))
                        s [])).

(** No line break of [body] is followed by the prefix of a message, [tail]
    being the text after the body. *)
Fixpoint lines_continue (body tail : str) : bool :=
  match body with
  | [] => true
  | y :: body' =>
    (if N.eqb y LF then negb (starts_message (body' ++ tail)) else true)
    && lines_continue body' tail
  end.

(** The text left after the timestamp at the head of [s]. *)
Definition after_stamp (s : str) : option str :=
  option_map fst (hd_error (Re.ms Patterns.dotall
                                  (Patterns.seq_of Patterns.stamp_items) s [])).

End Direct.

(** The placeholder phrases of line 55. *)
Definition PLACEHOLDERS : list str :=
  map str_of_string
      ["<Media omitted>"; "image omitted"; "video omitted"; "sticker omitted"]%string.

(** Two characters that [re.IGNORECASE] does not tell apart. *)
Definition same_letter (x y : char) : bool :=
  Re.literal_eq (Re.mkFlags true false) x y.

(** [phrase] occurs in [text], letter case aside. *)
Definition occurs_ignoring_case (phrase text : str) : Prop :=
  exists before middle after,
    text = before ++ middle ++ after /\ Forall2 (fun x y => same_letter x y = true) phrase middle.

(** The positions of a text, as what remains from each on. *)
Fixpoint tails (s : str) : list str :=
  s :: match s with
       | [] => []
       | _ :: s' => tails s'
       end.

(** Patterns without capturing groups. *)
Fixpoint group_free (r : Re.regex) : bool :=
  match r with
  | Re.Literal _ | Re.Any | Re.In _ _ | Re.At_End | Re.Empty => true
  | Re.Concat a b | Re.Branch a b => group_free a && group_free b
  | Re.Max_Repeat _ _ a | Re.Min_Repeat _ _ a | Re.Assert a | Re.Assert_Not a =>
    group_free a
  | Re.Subpattern _ _ => false
  end.

(** ** A sample installation

    One instance of the interface, for running the parser on concrete
    transcripts: a month-first reading of the timestamps, a few emoji keys
    and a few non-ASCII digit blocks. *)

Module Reference.

Fixpoint split_at (c : char) (s : str) : option (str * str) :=
  match s with
  | [] => None
  | x :: s' =>
    if N.eqb x c then Some ([], s')
    else match split_at c s' with
         | Some (a, b) => Some (x :: a, b)
         | None => None
         end
  end.

Definition number (ds : str) : option Z :=
  match ds with
  | [] => None
  | _ => if forallb Re.is_ascii_digit ds
         then Some (Z.of_nat (Re.int_of_digits ds))
         else None
  end.

Definition full_year (yy : str) (y : Z) : Z :=
  if length yy =? 2 then (if (y <? 69)%Z then 2000 + y else 1900 + y)%Z else y.

Definition clock_hour (h : Z) (pm : bool) : option Z :=
  if ((0 <=? h) && (h <=? 12))%Z
  then Some (if pm then (if (h <? 12)%Z then h + 12 else h)%Z
             else (if (h =? 12)%Z then 0 else h)%Z)
  else None.

Definition check (t : Timestamp) : option Timestamp :=
  if valid_timestampb t then Some t else None.

(** ["M/D/Y, H:MM[:SS] AM"], month first. *)
Definition month_first (s : str) : option Timestamp :=
  match split_at (ch "/") s with
  | Some (mo, r1) =>
    match split_at (ch "/") r1 with
    | Some (dd, r2) =>
      match split_at (ch ",") r2 with
      | Some (yy, _ :: r3) =>
        match split_at (ch ":") r3 with
        | Some (hh, r4) =>
          let clock := firstn (length r4 - 3) r4 in
          match skipn (length r4 - 3) r4 with
          | [_; a; _] =>
            let (mi, ss) :=
              match split_at (ch ":") clock with
              | Some (x, y) => (x, y)
              | None => (clock, [ch "0"])
              end in
            match number mo, number dd, number yy, number hh, number mi, number ss with
            | Some mo', Some dd', Some yy', Some hh', Some mi', Some ss' =>
              match clock_hour hh' (N.eqb a (ch "P") || N.eqb a (ch "p")) with
              | Some h => check (mkTimestamp (full_year yy yy') mo' dd' h mi' ss')
              | None => None
              end
            | _, _, _, _, _, _ => None
            end
          | _ => None
          end
        | None => None
        end
      | _ => None
      end
    | None => None
    end
  | None => None
  end.

Definition emoji_keys : list str :=
  [ [128512]; [128077]; [127997]; [128077; 127997]; [10084]; [10084; 65039];
    [127482; 127480] ]%N.

Definition more_digits (c : char) : bool :=
  in_range 1632 1641 c || in_range 1776 1785 c || in_range 2406 2415 c
  || in_range 65296 65305 c.

End Reference.

(** * Properties *)

Unset Implicit Arguments.

Lemma month_first_valid (col : list str) (t : Timestamp) :
  In (Some t) (map Reference.month_first col) -> valid_timestamp t.
Proof.
  intros Hin. apply in_map_iff in Hin. destruct Hin as [s [Hs _]].
  unfold Reference.month_first in Hs.
  repeat match type of Hs with
         | match ?x with _ => _ end = _ => destruct x; try discriminate
         end.
  unfold Reference.check in Hs.
  match type of Hs with
  | (if valid_timestampb ?u then _ else _) = _ =>
    destruct (valid_timestampb u) eqn:E; [ | discriminate ]
  end.
  injection Hs as <-. exact E.
Qed.

Definition sample : Platform := {|
  unicode_isdecimal_ext := Reference.more_digits;
  EMOJI_DATA := fun k => existsb (str_eqb k) Reference.emoji_keys;
  to_datetime := map Reference.month_first;
  to_datetime_length := fun col => length_map Reference.month_first col;
  to_datetime_valid := month_first_valid
|}.

(** ** The four patterns *)

Lemma compile_pattern :
  Re.compile (str_of_string pattern) Patterns.dotall = inr Patterns.PRIMARY.
Proof. vm_compute. reflexivity. Qed.

Lemma compile_pattern_alt :
  Re.compile (str_of_string pattern_alt) Patterns.dotall
  = inl (Re.PatternError "unbalanced parenthesis" 133).
Proof. vm_compute. reflexivity. Qed.

Lemma compile_media_pattern :
  Re.compile (str_of_string media_pattern) (Re.mkFlags true false) = inr Patterns.MEDIA.
Proof. vm_compute. reflexivity. Qed.

Lemma compile_url_pattern :
  Re.compile (str_of_string url_pattern) (Re.mkFlags false false) = inr Patterns.URL.
Proof. vm_compute. reflexivity. Qed.

(** ** The matcher only moves forward *)

Section MatcherFacts.

Context {P : Platform}.

Lemma repeat_ms_le step greedy lo budget :
  (forall s c p, In p (step s c) -> length (fst p) <= length s) ->
  forall s c p, In p (Re.repeat_ms step greedy lo budget s c) ->
                length (fst p) <= length s.
Proof.
  intros Hstep. revert lo.
  induction budget as [|b IH]; intros lo s c p Hin; simpl in Hin.
  - destruct (lo =? 0); simpl in Hin; [ | contradiction ].
    destruct Hin as [<- | []]. simpl. lia.
  - assert (Hmore : forall q,
             In q (flat_map (fun p0 => Re.repeat_ms step greedy (pred lo) b (fst p0) (snd p0))
                            (step s c)) ->
             length (fst q) <= length s).
    { intros q Hq. apply in_flat_map in Hq. destruct Hq as [x [Hx Hq]].
      apply IH in Hq. apply Hstep in Hx. lia. }
    destruct (0 <? lo).
    + auto.
    + destruct greedy.
      * apply in_app_or in Hin. destruct Hin as [Hin | [<- | []]]; auto.
      * destruct Hin as [<- | Hin]; auto.
Qed.

Lemma ms_le fl r :
  forall s c p, In p (Re.ms fl r s c) -> length (fst p) <= length s.
Proof.
  induction r as [x | | negate items | | | a IHa b IHb | a IHa b IHb | lo hi a IHa | lo hi a IHa | g a IHa | a IHa | a IHa];
    intros s c p Hin; simpl in Hin.
  - destruct s as [|y s']; [contradiction|].
    destruct (Re.literal_eq fl x y); [|contradiction].
    destruct Hin as [<- | []]. simpl. lia.
  - destruct s as [|y s']; [contradiction|].
    destruct (Re.DOTALL fl || negb (N.eqb y LF)); [|contradiction].
    destruct Hin as [<- | []]. simpl. lia.
  - destruct s as [|y s']; [contradiction|].
    destruct (xorb negate (existsb (Re.item_mem y) items)); [|contradiction].
    destruct Hin as [<- | []]. simpl. lia.
  - destruct s as [|y [|z s']].
    + destruct Hin as [<- | []]. simpl. lia.
    + destruct (N.eqb y LF); [|contradiction].
      destruct Hin as [<- | []]. simpl. lia.
    + contradiction.
  - destruct Hin as [<- | []]. simpl. lia.
  - apply in_flat_map in Hin. destruct Hin as [q [Hq Hin]].
    apply IHa in Hq. apply IHb in Hin. lia.
  - apply in_app_or in Hin. destruct Hin; eauto.
  - eapply repeat_ms_le; eauto.
  - eapply repeat_ms_le; eauto.
  - apply in_map_iff in Hin. destruct Hin as [q [<- Hq]]. simpl. eauto.
  - destruct (Re.ms fl a s c); [contradiction|].
    destruct Hin as [<- | []]. simpl. lia.
  - destruct (Re.ms fl a s c); [|contradiction].
    destruct Hin as [<- | []]. simpl. lia.
Qed.

Lemma repeat_ms_lt step greedy lo budget :
  0 < lo ->
  (forall s c p, In p (step s c) -> length (fst p) < length s) ->
  forall s c p, In p (Re.repeat_ms step greedy lo budget s c) ->
                length (fst p) < length s.
Proof.
  intros Hlo Hstep s c p Hin.
  destruct budget as [|b]; simpl in Hin.
  - destruct (Nat.eqb_spec lo 0); [lia | contradiction].
  - destruct (Nat.ltb_spec 0 lo); [|lia].
    apply in_flat_map in Hin. destruct Hin as [x [Hx Hin]].
    apply Hstep in Hx.
    apply repeat_ms_le in Hin.
    + lia.
    + intros s0 c0 p0 H0. apply Hstep in H0. lia.
Qed.

Lemma ms_lt fl r :
  Re.nullable r = false ->
  forall s c p, In p (Re.ms fl r s c) -> length (fst p) < length s.
Proof.
  induction r as [x | | negate items | | | a IHa b IHb | a IHa b IHb | lo hi a IHa | lo hi a IHa | g a IHa | a IHa | a IHa];
    intros Hn s c p Hin; simpl in Hn; try discriminate; simpl in Hin.
  - destruct s as [|y s']; [contradiction|].
    destruct (Re.literal_eq fl x y); [|contradiction].
    destruct Hin as [<- | []]. simpl. lia.
  - destruct s as [|y s']; [contradiction|].
    destruct (Re.DOTALL fl || negb (N.eqb y LF)); [|contradiction].
    destruct Hin as [<- | []]. simpl. lia.
  - destruct s as [|y s']; [contradiction|].
    destruct (xorb negate (existsb (Re.item_mem y) items)); [|contradiction].
    destruct Hin as [<- | []]. simpl. lia.
  - apply in_flat_map in Hin. destruct Hin as [q [Hq Hin]].
    apply andb_false_iff in Hn. destruct Hn as [Hn | Hn].
    + apply (IHa Hn) in Hq. apply ms_le in Hin. lia.
    + apply ms_le in Hq. apply (IHb Hn) in Hin. lia.
  - apply orb_false_iff in Hn. destruct Hn as [Hn1 Hn2].
    apply in_app_or in Hin. destruct Hin; eauto.
  - apply orb_false_iff in Hn. destruct Hn as [Hlo Hn].
    apply Nat.eqb_neq in Hlo.
    eapply repeat_ms_lt; [ | | exact Hin ]; [ lia | exact (IHa Hn) ].
  - apply orb_false_iff in Hn. destruct Hn as [Hlo Hn].
    apply Nat.eqb_neq in Hlo.
    eapply repeat_ms_lt; [ | | exact Hin ]; [ lia | exact (IHa Hn) ].
  - apply in_map_iff in Hin. destruct Hin as [q [<- Hq]]. simpl. eauto.
Qed.

Lemma match_at_lt p s rest c :
  Re.nullable (Re.pat_regex p) = false ->
  Re.match_at p s = Some (rest, c) -> length rest < length s.
Proof.
  intros Hn H. unfold Re.match_at in H.
  destruct (Re.ms (Re.pat_flags p) (Re.pat_regex p) s []) as [|q l] eqn:E;
    [discriminate|].
  simpl in H. injection H as ->.
  apply (ms_lt (Re.pat_flags p) (Re.pat_regex p) Hn s [] (rest, c)).
  rewrite E. left. reflexivity.
Qed.

Lemma search_some p s start rest c :
  Re.search p s = Some (start, rest, c) ->
  Re.match_at p start = Some (rest, c) /\ exists before, s = before ++ start.
Proof.
  induction s as [|y s' IH]; simpl; intros H.
  - destruct (Re.match_at p []) as [[r0 c0]|] eqn:E; [|discriminate].
    injection H as <- <- <-. split; [exact E | exists []; reflexivity].
  - destruct (Re.match_at p (y :: s')) as [[r0 c0]|] eqn:E.
    + injection H as <- <- <-. split; [exact E | exists []; reflexivity].
    + destruct (IH H) as [Hm [before ->]]. split; [exact Hm|].
      exists (y :: before). reflexivity.
Qed.

Lemma match_groups_length p start rest c :
  length (Re.match_groups p start rest c) = Nat.max 1 (Re.pat_groups p).
Proof.
  unfold Re.match_groups. destruct (Re.pat_groups p) as [|n]; [reflexivity|].
  rewrite length_map, length_seq. lia.
Qed.

(** [findall] terminates with a result within its fuel, for every pattern
    that cannot match the empty string. *)
Lemma findall_loop_total p :
  Re.nullable (Re.pat_regex p) = false ->
  forall fuel s, length s < fuel ->
    exists l, Re.findall_loop fuel p s = inr l
              /\ Forall (fun m => length m = Nat.max 1 (Re.pat_groups p)) l.
Proof.
  intros Hn. induction fuel as [|f IH]; intros s Hlen; [lia|].
  simpl. destruct (Re.search p s) as [[[start rest] c]|] eqn:E.
  - apply search_some in E. destruct E as [Hm [before ->]].
    pose proof (match_at_lt _ _ _ _ Hn Hm) as Hlt.
    destruct (Nat.ltb_spec (length rest) (length start)); [|lia].
    rewrite length_app in Hlen.
    destruct (IH rest) as [l [-> Hl]]; [lia|].
    simpl. eexists. split; [reflexivity|].
    constructor; [apply match_groups_length | exact Hl].
  - exists []. split; [reflexivity | constructor].
Qed.

Lemma findall_loop_fuel p :
  Re.nullable (Re.pat_regex p) = false ->
  forall fuel fuel' s, length s < fuel -> length s < fuel' ->
    Re.findall_loop fuel p s = Re.findall_loop fuel' p s.
Proof.
  intros Hn. induction fuel as [|f IH]; intros fuel' s H1 H2; [lia|].
  destruct fuel' as [|f']; [lia|].
  simpl. destruct (Re.search p s) as [[[start rest] c]|] eqn:E; [|reflexivity].
  apply search_some in E. destruct E as [Hm [before ->]].
  pose proof (match_at_lt _ _ _ _ Hn Hm) as Hlt.
  destruct (Nat.ltb_spec (length rest) (length start)); [|lia].
  rewrite length_app in H1, H2.
  rewrite (IH f' rest); [reflexivity | lia | lia].
Qed.

End MatcherFacts.

(** ** Reading the upload *)

Lemma utf_8_sig_fails (raw : bytes) :
  Codecs.utf_8 raw = None -> Codecs.utf_8_sig raw = None.
Proof.
  unfold Codecs.utf_8, Codecs.utf_8_sig.
  destruct (map Byte.to_N raw) as [|b0 [|b1 [|b2 r]]]; auto.
  intros H.
  destruct (N.eqb b0 239 && N.eqb b1 187 && N.eqb b2 191) eqn:E; [|exact H].
  apply andb_prop in E. destruct E as [E E2]. apply andb_prop in E.
  destruct E as [E0 E1].
  apply N.eqb_eq in E0, E1, E2. subst b0 b1 b2.
  change (option_map (cons 65279%N) (Codecs.utf_8_codes r) = None) in H.
  destruct (Codecs.utf_8_codes r); [discriminate | reflexivity].
Qed.

(** Reading never fails: what is not UTF-8 is read as Latin-1. *)
Lemma read_content_decoded (raw : bytes) :
  read_content raw = (decode_calls raw, inr (Some (decoded raw))).
Proof.
  unfold read_content, decode, decode_calls, decoded.
  destruct (Codecs.utf_8 raw) as [content|] eqn:E8; [reflexivity|].
  rewrite (utf_8_sig_fails raw E8). reflexivity.
Qed.

(** ** The frame, row by row *)

Section Frame.

Context {P : Platform}.

Lemma findall_pattern (content : str) :
  Re.findall (str_of_string pattern) content (Re.mkFlags false true)
  = Re.pattern_findall Patterns.PRIMARY content.
Proof.
  unfold Re.findall. change (Re.mkFlags false true) with Patterns.dotall.
  rewrite compile_pattern. reflexivity.
Qed.

Lemma findall_pattern_alt (content : str) :
  Re.findall (str_of_string pattern_alt) content (Re.mkFlags false true)
  = inl (Re.PatternError "unbalanced parenthesis" 133).
Proof.
  unfold Re.findall. change (Re.mkFlags false true) with Patterns.dotall.
  rewrite compile_pattern_alt. reflexivity.
Qed.

(** The primary pattern always yields a list of blocks, three groups each. *)
Lemma pattern_findall_total (content : str) :
  exists matches,
    Re.pattern_findall Patterns.PRIMARY content = inr matches
    /\ Forall (fun m => length m = 3) matches.
Proof.
  unfold Re.pattern_findall.
  destruct (findall_loop_total Patterns.PRIMARY eq_refl (S (length content)) content)
    as [l [E Hl]]; [lia|].
  exists l. split; [exact E | exact Hl].
Qed.

Lemma frame_of_matches_triples (matches : list (list str)) :
  Forall (fun m => length m = 3) matches ->
  frame_of_matches matches = ([], inr (map triple_of matches)).
Proof.
  induction 1 as [|m l Hm Hl IH]; [reflexivity|].
  destruct m as [|t [|u [|b [|z m']]]]; try discriminate.
  simpl. rewrite IH. reflexivity.
Qed.

Lemma str_contains_media (col : list str) :
  str_contains col media_pattern false = ([], inr (map (found Patterns.MEDIA) col)).
Proof.
  unfold str_contains. simpl negb. rewrite compile_media_pattern. reflexivity.
Qed.

Lemma str_contains_url (col : list str) :
  str_contains col url_pattern true = ([], inr (map (found Patterns.URL) col)).
Proof.
  unfold str_contains. simpl negb. rewrite compile_url_pattern. reflexivity.
Qed.

Lemma assemble_map (f g : str -> bool) (df : list (option Timestamp * str * str)) :
  assemble df (map f (map snd df)) (map g (map snd df))
  = map (fun r => enrich r (f (snd r)) (g (snd r))) df.
Proof.
  induction df as [|r df IH]; [reflexivity|].
  simpl. rewrite IH. reflexivity.
Qed.

(** [preprocess_chat] on an upload, in one equation. *)
Lemma preprocess_chat_upload (raw : bytes) :
  preprocess_chat (Some raw) = (calls_on raw, parse (decoded raw)).
Proof.
  unfold preprocess_chat, calls_on, parse.
  rewrite read_content_decoded.
  unfold bind at 1.
  unfold re_findall at 1. rewrite findall_pattern.
  destruct (pattern_findall_total (decoded raw)) as [matches [E H3]].
  rewrite E.
  destruct matches as [|m l].
  - cbn [call lift_re bind ret is_empty app].
    unfold re_findall. rewrite findall_pattern_alt.
    cbn. reflexivity.
  - cbn [call lift_re bind ret is_empty app].
    rewrite (frame_of_matches_triples _ H3).
    cbn [bind].
    rewrite str_contains_media. cbn [bind].
    rewrite str_contains_url. cbn [bind ret app].
    rewrite assemble_map. reflexivity.
Qed.

End Frame.

(** ** Transcripts used below *)

Definition transcript_24h : bytes :=
  bytes_of_string "1/2/23, 14:05 - Alice: Hello".

Definition scenario : bytes :=
  bytes_of_string "1/2/23, 9:05 AM - Alice: Hello there" ++ [x0a] ++
  bytes_of_string "1/2/23, 9:06 AM - Bob: <Media omitted>" ++ [x0a] ++
  bytes_of_string "1/2/23, 9:07 AM - Alice: check https://example.com 😀".

Definition transcript_day_32 : bytes :=
  bytes_of_string "1/2/23, 9:05 AM - Alice: Hello" ++ [x0a] ++
  bytes_of_string "1/32/23, 9:06 AM - Bob: never sent" ++ [x0a] ++
  bytes_of_string "2/29/24, 12:07 pm - Carol: kept".

(** The frame the sample installation returns for an upload ([[]] when it
    returns none), and its rows by position. *)
Definition sample_frame (raw : bytes) : DataFrame :=
  match outcome (@preprocess_chat sample (Some raw)) with
  | inr (Some df) => df
  | _ => []
  end.

Definition blank : MessageRecord :=
  mkRecord None [] [] false false [] 0 0 None None None None None.

Definition row (i : nat) (df : DataFrame) : MessageRecord := nth i df blank.

Definition scenario_frame : DataFrame := Eval vm_compute in sample_frame scenario.

Definition day_32_frame : DataFrame := Eval vm_compute in sample_frame transcript_day_32.

(** A thumbs-up with a skin-tone modifier: two code points, both keys. *)
Definition transcript_thumbs : bytes :=
  bytes_of_string "1/2/23, 9:05 AM - Alice: ok 👍🏽".

Definition thumbs_frame : DataFrame := Eval vm_compute in sample_frame transcript_thumbs.

(** The blocks the primary pattern finds in a transcript. *)
Definition sample_blocks (raw : bytes) : list (list str) :=
  match Re.pattern_findall (P := sample) Patterns.PRIMARY (decoded raw) with
  | inr l => l
  | inl _ => []
  end.

Definition scenario_blocks : list (list str) := Eval vm_compute in sample_blocks scenario.

Definition day_32_blocks : list (list str) :=
  Eval vm_compute in sample_blocks transcript_day_32.

Definition present {A} (o : option A) : bool :=
  match o with
  | Some _ => true
  | None => false
  end.

(** Each block with the conversion of its timestamp. *)
Definition converted {P : Platform} (matches : list (list str))
  : list (option Timestamp * list str) :=
  combine (to_datetime (map (fun m => nth 0 m []) matches)) matches.

(** A placeholder in the middle of a sentence, in capitals. *)
Definition transcript_around : bytes :=
  bytes_of_string "1/2/23, 9:05 AM - Bob: see the IMAGE Omitted above".

Definition around_frame : DataFrame := Eval vm_compute in sample_frame transcript_around.

(** A red heart with its variation selector: the pair is a key of the sample
    table, the selector alone is not. *)
Definition transcript_heart : bytes :=
  bytes_of_string "1/2/23, 9:05 AM - Alice: ok " ++ [xe2; x9d; xa4; xef; xb8; x8f].

Definition heart_frame : DataFrame := Eval vm_compute in sample_frame transcript_heart.

(** Four bytes that are no text at all (the start of a PNG file). *)
Definition not_text : bytes := [x89; x50; x4e; x47].

(** ** No upload *)

(** C10: called with [None] for the upload, [preprocess_chat] returns [None]
    at once: no codec is tried and no pattern is matched, whatever the
    installed packages are. *)
Theorem preprocess_chat_no_upload (P : Platform) :
  calls (@preprocess_chat P None) = [] /\ outcome (@preprocess_chat P None) = inr None.
Proof. split; reflexivity. Qed.

(** ** The 24-hour dialect *)

(** C1: whenever the primary pattern finds no message in the text of an
    upload, [preprocess_chat] does go on to the alternate pattern, and the
    call ends there with [re.error]: the alternate pattern has a closing
    parenthesis too many and is rejected by the pattern compiler. No frame
    is returned. *)
Theorem alternate_dialect_raises (P : Platform) (raw : bytes) :
  Re.findall (str_of_string pattern) (decoded raw) (Re.mkFlags false true) = inr [] ->
  outcome (preprocess_chat (Some raw)) = inl (re_error "unbalanced parenthesis" 133)
  /\ calls (preprocess_chat (Some raw))
     = decode_calls raw ++ [Findall pattern; Findall pattern_alt].
Proof.
  intros H. rewrite findall_pattern in H.
  rewrite preprocess_chat_upload. unfold outcome, calls, calls_on, parse. simpl.
  rewrite H. split; reflexivity.
Qed.

Lemma alternate_dialect_raises_witness :
  Re.findall (P := sample) (str_of_string pattern) (decoded transcript_24h)
             (Re.mkFlags false true) = inr []
  /\ outcome (@preprocess_chat sample (Some transcript_24h))
     = inl (re_error "unbalanced parenthesis" 133).
Proof.
  split.
  - vm_compute. reflexivity.
  - apply (alternate_dialect_raises sample transcript_24h). vm_compute. reflexivity.
Defined.

(** The same on the 24-hour transcript, for every installation. *)
Lemma transcript_24h_raises (P : Platform) :
  preprocess_chat (Some transcript_24h)
  = ([Decode "utf-8"; Findall pattern; Findall pattern_alt],
     inl (re_error "unbalanced parenthesis" 133)).
Proof.
  rewrite preprocess_chat_upload. unfold calls_on, parse.
  assert (E : Re.pattern_findall Patterns.PRIMARY (decoded transcript_24h) = inr [])
    by (vm_compute; reflexivity).
  rewrite E. reflexivity.
Qed.

(** An upload is always readable, and the call never returns [None] for it:
    it raises or returns a frame. *)
Lemma preprocess_chat_upload_not_None (P : Platform) (raw : bytes) :
  outcome (read_content raw) = inr (Some (decoded raw))
  /\ outcome (preprocess_chat (Some raw)) <> inr None.
Proof.
  split.
  - rewrite read_content_decoded. reflexivity.
  - rewrite preprocess_chat_upload. unfold outcome, parse. simpl.
    destruct (Re.pattern_findall Patterns.PRIMARY (decoded raw)) as [e|[|m l]];
      discriminate.
Qed.

(** Bytes that are no text are read as Latin-1 and end like any text
    without a message: with [re.error] from the alternate pattern. *)
Lemma not_text_raises :
  outcome (@preprocess_chat sample (Some not_text))
  = inl (re_error "unbalanced parenthesis" 133)
  /\ calls (@preprocess_chat sample (Some not_text))
     = [Decode "utf-8"; Decode "utf-8-sig"; Decode "latin-1";
        Findall pattern; Findall pattern_alt].
Proof. split; vm_compute; reflexivity. Qed.

(** ** Rows of the returned frame *)

Section Rows.

Context {P : Platform}.

(** Every row of a returned frame is built by [record_of] from a block
    whose converted timestamp is present and exists. *)
Lemma returned_row (file_upload : option bytes) (df : DataFrame) (r : MessageRecord) :
  outcome (preprocess_chat file_upload) = inr (Some df) ->
  In r df ->
  exists t u m, r = record_of (Some t, u, m) /\ valid_timestamp t.
Proof.
  destruct file_upload as [raw|]; [|discriminate].
  rewrite preprocess_chat_upload. unfold outcome, parse. cbn [snd].
  destruct (Re.pattern_findall Patterns.PRIMARY (decoded raw)) as [e|[|m0 l]];
    try discriminate.
  intros H Hin. injection H as <-.
  unfold frame_of in Hin. apply in_map_iff in Hin.
  destruct Hin as [[[ts u] m] [<- Hx]].
  unfold dropna in Hx. apply filter_In in Hx. destruct Hx as [Hx Hts].
  cbn [fst] in Hts. destruct ts as [t|]; [|discriminate].
  exists t, u, m. split; [reflexivity|].
  unfold convert_timestamps in Hx.
  apply in_combine_l in Hx. apply in_combine_l in Hx.
  exact (to_datetime_valid _ _ Hx).
Qed.

Lemma day_name_listed (t : Timestamp) : In (ts_day_name t) DAY_NAMES.
Proof.
  unfold ts_day_name. apply nth_In.
  assert (H : (0 <= weekday t < 7)%Z) by (unfold weekday; apply Z.mod_pos_bound; lia).
  change (length DAY_NAMES) with 7. lia.
Qed.

Lemma month_name_listed (t : Timestamp) :
  valid_timestamp t -> In (ts_month_name t) MONTH_NAMES.
Proof.
  intros H. unfold ts_month_name. apply nth_In.
  unfold valid_timestamp, valid_timestampb in H.
  repeat (apply andb_prop in H; destruct H as [H ?]).
  change (length MONTH_NAMES) with 12. lia.
Qed.

Lemma valid_hour (t : Timestamp) : valid_timestamp t -> (0 <= ts_hour t <= 23)%Z.
Proof.
  intros H. unfold valid_timestamp, valid_timestampb in H.
  repeat (apply andb_prop in H; destruct H as [H ?]). lia.
Qed.

Lemma extract_emojis_app (a b : str) :
  extract_emojis (a ++ b) = extract_emojis a ++ extract_emojis b.
Proof. unfold extract_emojis. apply filter_app. Qed.

Lemma extract_emojis_all (s : str) :
  (forall c, In c s -> EMOJI_DATA [c] = true) -> extract_emojis s = s.
Proof.
  intros H. unfold extract_emojis. induction s as [|c s IH]; [reflexivity|].
  simpl. rewrite (H c (or_introl eq_refl)). f_equal.
  apply IH. intros c' Hc'. apply H. right. exact Hc'.
Qed.

End Rows.

(** C6: in every row of a returned frame the timestamp is present and is a
    timestamp that exists, and [date], [day], [hour], [month] and [year] are
    all present and are the date, the weekday name, the hour (0 to 23), the
    month name and the year of that timestamp. *)
Theorem calendar_fields_defined (P : Platform) (file_upload : option bytes)
        (df : DataFrame) (r : MessageRecord) :
  outcome (preprocess_chat file_upload) = inr (Some df) ->
  In r df ->
  exists t, timestamp r = Some t /\ valid_timestamp t
    /\ date r = Some (ts_date t)
    /\ day r = Some (ts_day_name t) /\ In (ts_day_name t) DAY_NAMES
    /\ hour r = Some (ts_hour t) /\ (0 <= ts_hour t <= 23)%Z
    /\ month r = Some (ts_month_name t) /\ In (ts_month_name t) MONTH_NAMES
    /\ year r = Some (ts_year t).
Proof.
  intros H Hin. destruct (returned_row _ _ _ H Hin) as [t [u [m [-> Hv]]]].
  exists t. unfold record_of, enrich.
  cbn [timestamp date day hour month year
       dt_date dt_day_name dt_hour dt_month_name dt_year option_map].
  split; [reflexivity|]. split; [exact Hv|]. split; [reflexivity|].
  split; [reflexivity|]. split; [apply day_name_listed|].
  split; [reflexivity|]. split; [exact (valid_hour t Hv)|].
  split; [reflexivity|]. split; [exact (month_name_listed t Hv)|].
  reflexivity.
Qed.

Lemma calendar_fields_defined_witness :
  outcome (@preprocess_chat sample (Some scenario)) = inr (Some scenario_frame)
  /\ In (row 0 scenario_frame) scenario_frame
  /\ exists t, timestamp (row 0 scenario_frame) = Some t /\ valid_timestamp t
       /\ date (row 0 scenario_frame) = Some (ts_date t)
       /\ day (row 0 scenario_frame) = Some (ts_day_name t)
       /\ In (ts_day_name t) DAY_NAMES
       /\ hour (row 0 scenario_frame) = Some (ts_hour t)
       /\ (0 <= ts_hour t <= 23)%Z
       /\ month (row 0 scenario_frame) = Some (ts_month_name t)
       /\ In (ts_month_name t) MONTH_NAMES
       /\ year (row 0 scenario_frame) = Some (ts_year t).
Proof.
  split; [vm_compute; reflexivity|].
  split; [left; reflexivity|].
  apply (calendar_fields_defined sample (Some scenario) scenario_frame
           (row 0 scenario_frame)).
  - vm_compute. reflexivity.
  - left. reflexivity.
Defined.

(** C7, as the code has it: in every row of a returned frame, [emojis] is the
    message filtered, code point by code point and in order, by membership in
    the emoji table, and [emoji_count] is its length. The scan knows no
    clusters: of a sequence of several code points it keeps the code points
    that are keys of the table themselves, one entry each, so a sequence
    whose code points are all keys contributes every one of them. *)
Theorem emojis_per_code_point (P : Platform) (file_upload : option bytes)
        (df : DataFrame) (r : MessageRecord) :
  outcome (preprocess_chat file_upload) = inr (Some df) ->
  In r df ->
  emojis r = filter (fun c => EMOJI_DATA [c]) (message r)
  /\ emoji_count r = length (emojis r)
  /\ forall before sequence after,
       message r = before ++ sequence ++ after ->
       (forall c, In c sequence -> EMOJI_DATA [c] = true) ->
       emojis r = extract_emojis before ++ sequence ++ extract_emojis after.
Proof.
  intros H Hin. destruct (returned_row _ _ _ H Hin) as [t [u [m [-> Hv]]]].
  unfold record_of, enrich. cbn [emojis emoji_count message].
  split; [reflexivity|]. split; [reflexivity|].
  intros before sequence after -> Hall.
  rewrite !extract_emojis_app, (extract_emojis_all sequence Hall). reflexivity.
Qed.

Lemma emojis_per_code_point_witness :
  outcome (@preprocess_chat sample (Some transcript_thumbs)) = inr (Some thumbs_frame)
  /\ In (row 0 thumbs_frame) thumbs_frame
  /\ message (row 0 thumbs_frame) = str_of_string "ok " ++ [128077; 127997]%N
  /\ emojis (row 0 thumbs_frame) = [128077; 127997]%N
  /\ emoji_count (row 0 thumbs_frame) = 2.
Proof.
  assert (Hrun : outcome (@preprocess_chat sample (Some transcript_thumbs))
                 = inr (Some thumbs_frame)) by (vm_compute; reflexivity).
  assert (Hin : In (row 0 thumbs_frame) thumbs_frame) by (left; reflexivity).
  destruct (emojis_per_code_point sample (Some transcript_thumbs) thumbs_frame
              (row 0 thumbs_frame) Hrun Hin) as [Hfilter [Hcount Hseq]].
  split; [exact Hrun|]. split; [exact Hin|]. split; [reflexivity|].
  assert (He : emojis (row 0 thumbs_frame) = [128077; 127997]%N).
  { rewrite (Hseq (str_of_string "ok ") [128077; 127997]%N []).
    - reflexivity.
    - reflexivity.
    - intros c [<- | [<- | []]]; reflexivity. }
  split; [exact He|]. rewrite Hcount, He. reflexivity.
Defined.

(** A sequence that is one emoji of the table need not contribute one entry
    per code point: the red heart followed by its variation selector is a
    key of the sample table and contributes the heart alone. *)
Lemma selector_sequence_counts_once :
  ~ (forall (P : Platform) (file_upload : option bytes) (df : DataFrame)
            (r : MessageRecord) (before sequence after : str),
        outcome (preprocess_chat file_upload) = inr (Some df) ->
        In r df ->
        message r = before ++ sequence ++ after ->
        EMOJI_DATA sequence = true ->
        emojis r = extract_emojis before ++ sequence ++ extract_emojis after).
Proof.
  intros H.
  specialize (H sample (Some transcript_heart) heart_frame (row 0 heart_frame)
                (str_of_string "ok ") [10084; 65039]%N []).
  assert (E : emojis (row 0 heart_frame) = [10084%N]) by reflexivity.
  rewrite E in H.
  assert (Hrun : outcome (@preprocess_chat sample (Some transcript_heart))
                 = inr (Some heart_frame)) by (vm_compute; reflexivity).
  specialize (H Hrun (or_introl eq_refl) eq_refl eq_refl).
  vm_compute in H. discriminate H.
Qed.

(** ** Blocks whose timestamp does not convert *)

Section Dropping.

Context {P : Platform}.

Lemma combine3_map {A B C D} (f : A -> B) (g : A -> C) (l : list A) :
  forall col : list D,
    combine (combine col (map f l)) (map g l)
    = map (fun x => (fst x, f (snd x), g (snd x))) (combine col l).
Proof.
  induction l as [|a l IH]; intros [|d col]; simpl; try reflexivity.
  rewrite IH. reflexivity.
Qed.

Lemma convert_timestamps_converted (matches : list (list str)) :
  convert_timestamps (map triple_of matches)
  = map (fun x => (fst x, nth 1 (snd x) [], nth 2 (snd x) [])) (converted matches).
Proof.
  unfold convert_timestamps, converted.
  rewrite !map_map. cbn [triple_of fst snd].
  apply (combine3_map (fun m => nth 1 m []) (fun m => nth 2 m [])).
Qed.

Lemma dropna_map {A} (h : option Timestamp * A -> option Timestamp * str * str)
      (l : list (option Timestamp * A)) :
  (forall x, fst (fst (h x)) = fst x) ->
  dropna (map h l) = map h (filter (fun x => present (fst x)) l).
Proof.
  intros Hh. unfold dropna. induction l as [|x l IH]; [reflexivity|].
  simpl. rewrite Hh, IH. destruct (fst x); reflexivity.
Qed.

Lemma frame_of_converted (matches : list (list str)) :
  frame_of matches
  = map (fun x => record_of (fst x, nth 1 (snd x) [], nth 2 (snd x) []))
        (filter (fun x => present (fst x)) (converted matches)).
Proof.
  unfold frame_of. rewrite convert_timestamps_converted.
  rewrite dropna_map by reflexivity. rewrite map_map. reflexivity.
Qed.

Lemma Forall2_map_self {A B} (R : B -> A -> Prop) (f : A -> B) (l : list A) :
  (forall x, In x l -> R (f x) x) -> Forall2 R (map f l) l.
Proof.
  induction l as [|x l IH]; intros H; simpl; constructor.
  - apply H. left. reflexivity.
  - apply IH. intros y Hy. apply H. right. exact Hy.
Qed.

End Dropping.

(** C3: when the primary pattern finds blocks, a frame is returned whose rows
    are, one for one and in order, the blocks whose timestamp converts: a
    block whose timestamp matched the pattern but does not convert is left
    out, the blocks around it stay, and no row is kept without a timestamp. *)
Theorem malformed_timestamps_dropped (P : Platform) (raw : bytes)
        (matches : list (list str)) :
  Re.findall (str_of_string pattern) (decoded raw) (Re.mkFlags false true) = inr matches ->
  matches <> [] ->
  exists df,
    outcome (preprocess_chat (Some raw)) = inr (Some df)
    /\ Forall2 (fun r x => timestamp r = fst x
                           /\ user r = strip (nth 1 (snd x) [])
                           /\ message r = nth 2 (snd x) [])
               df (filter (fun x => present (fst x)) (converted matches))
    /\ Forall (fun r => timestamp r <> None) df.
Proof.
  intros H Hne. rewrite findall_pattern in H.
  exists (frame_of matches). split; [|split].
  - rewrite preprocess_chat_upload. unfold outcome, parse. cbn [snd]. rewrite H.
    destruct matches; [contradiction | reflexivity].
  - rewrite frame_of_converted. apply Forall2_map_self.
    intros x _. repeat split.
  - rewrite frame_of_converted. apply Forall_forall. intros r Hr.
    apply in_map_iff in Hr. destruct Hr as [x [<- Hx]].
    apply filter_In in Hx. destruct Hx as [_ Hx].
    unfold record_of, enrich. cbn [timestamp].
    destruct (fst x); [discriminate | discriminate].
Qed.

Lemma malformed_timestamps_dropped_witness :
  length day_32_blocks = 3
  /\ map present (@to_datetime sample (map (fun m => nth 0 m []) day_32_blocks))
     = [true; false; true]
  /\ exists df,
       outcome (@preprocess_chat sample (Some transcript_day_32)) = inr (Some df)
       /\ Forall2 (fun r x => timestamp r = fst x
                              /\ user r = strip (nth 1 (snd x) [])
                              /\ message r = nth 2 (snd x) [])
                  df (filter (fun x => present (fst x))
                             (@converted sample day_32_blocks))
       /\ Forall (fun r => timestamp r <> None) df.
Proof.
  split; [reflexivity|]. split; [vm_compute; reflexivity|].
  apply (malformed_timestamps_dropped sample transcript_day_32 day_32_blocks).
  - vm_compute. reflexivity.
  - discriminate.
Defined.

(** The day-32 transcript: the first and the third message are returned. *)
Example day_32_messages :
  outcome (@preprocess_chat sample (Some transcript_day_32)) = inr (Some day_32_frame)
  /\ map message day_32_frame = [str_of_string "Hello"; str_of_string "kept"].
Proof. split; vm_compute; reflexivity. Qed.

(** ** The three-message scenario *)

Section Scenario.

Context {P : Platform}.

Lemma scenario_findall :
  Re.pattern_findall Patterns.PRIMARY (decoded scenario) = inr scenario_blocks.
Proof. vm_compute. reflexivity. Qed.

Lemma scenario_outcome :
  outcome (preprocess_chat (Some scenario)) = inr (Some (frame_of scenario_blocks)).
Proof.
  rewrite preprocess_chat_upload. unfold outcome, parse. cbn [snd].
  rewrite scenario_findall. reflexivity.
Qed.

(** The frame of the scenario, by what the conversion says of each of the
    three timestamps. *)
Lemma scenario_rows :
  exists o1 o2 o3,
    to_datetime (map (fun m => nth 0 m []) scenario_blocks) = [o1; o2; o3]
    /\ frame_of scenario_blocks
       = map record_of
             (dropna [ (o1, nth 1 (nth 0 scenario_blocks []) [],
                            nth 2 (nth 0 scenario_blocks []) []);
                       (o2, nth 1 (nth 1 scenario_blocks []) [],
                            nth 2 (nth 1 scenario_blocks []) []);
                       (o3, nth 1 (nth 2 scenario_blocks []) [],
                            nth 2 (nth 2 scenario_blocks []) []) ]).
Proof.
  pose proof (to_datetime_length (map (fun m => nth 0 m []) scenario_blocks)) as Hlen.
  unfold frame_of, convert_timestamps. rewrite !map_map.
  cbn [triple_of fst snd].
  destruct (to_datetime (map (fun m => nth 0 m []) scenario_blocks))
    as [|o1 [|o2 [|o3 [|o4 l]]]]; try discriminate Hlen.
  exists o1, o2, o3. split; reflexivity.
Qed.

Lemma extract_emojis_none (s : str) :
  (forall c, In c s -> EMOJI_DATA [c] = false) -> extract_emojis s = [].
Proof.
  intros H. unfold extract_emojis. induction s as [|c s IH]; [reflexivity|].
  simpl. rewrite (H c (or_introl eq_refl)).
  apply IH. intros c' Hc'. apply H. right. exact Hc'.
Qed.

End Scenario.

(** C5, as the code has it: on the three-message input the frame has three
    rows (given that the three timestamps convert); the second has
    [has_media] true and [message_length] 15, the length of
    ["<Media omitted>"]; the third has [has_url] true, the one emoji of its
    message as [emojis] (given that the grinning face is a key of the emoji
    table and no other character of that message is), [emoji_count] 1 and
    user ["Alice"]. *)
Theorem scenario_three_rows (P : Platform) :
  ~ In None (to_datetime (map (fun m => nth 0 m []) scenario_blocks)) ->
  EMOJI_DATA [128512%N] = true ->
  (forall c, In c (str_of_string "check https://example.com ") -> EMOJI_DATA [c] = false) ->
  exists r1 r2 r3,
    outcome (preprocess_chat (Some scenario)) = inr (Some [r1; r2; r3])
    /\ has_media r2 = true /\ message_length r2 = 15
    /\ has_url r3 = true /\ emojis r3 = [128512%N] /\ emoji_count r3 = 1
    /\ user r3 = str_of_string "Alice".
Proof.
  intros Hts Hface Hrest.
  destruct (@scenario_rows P) as [o1 [o2 [o3 [E Hframe]]]].
  rewrite E in Hts.
  destruct o1 as [t1|]; [|exfalso; apply Hts; simpl; tauto].
  destruct o2 as [t2|]; [|exfalso; apply Hts; simpl; tauto].
  destruct o3 as [t3|]; [|exfalso; apply Hts; simpl; tauto].
  rewrite scenario_outcome, Hframe. cbn [dropna filter fst map].
  do 3 eexists. split; [reflexivity|].
  assert (Hm : extract_emojis (nth 2 (nth 2 scenario_blocks []) []) = [128512%N]).
  { change (nth 2 (nth 2 scenario_blocks []) [])
      with (str_of_string "check https://example.com " ++ [128512%N]).
    rewrite extract_emojis_app, (extract_emojis_none _ Hrest).
    unfold extract_emojis. simpl. rewrite Hface. reflexivity. }
  unfold record_of, enrich.
  cbn [has_media message_length has_url emojis emoji_count user snd].
  rewrite Hm.
  repeat split; vm_compute; reflexivity.
Qed.

Lemma scenario_three_rows_witness :
  exists r1 r2 r3,
    outcome (@preprocess_chat sample (Some scenario)) = inr (Some [r1; r2; r3])
    /\ has_media r2 = true /\ message_length r2 = 15
    /\ has_url r3 = true /\ emojis r3 = [128512%N] /\ emoji_count r3 = 1
    /\ user r3 = str_of_string "Alice".
Proof.
  apply (scenario_three_rows sample).
  - cbv - [In]. intros H. repeat (destruct H as [H | H]; [discriminate|]). exact H.
  - reflexivity.
  - intros c Hc. cbv in Hc.
    repeat (destruct Hc as [<- | Hc]; [reflexivity|]). destruct Hc.
Defined.

(** The scenario as the specification words it, with [message_length] 14 for
    the second row, holds under no installation: that row's message has 15
    characters. *)
Lemma scenario_length_is_not_14 :
  ~ exists (P : Platform) r1 r2 r3,
      outcome (@preprocess_chat P (Some scenario)) = inr (Some [r1; r2; r3])
      /\ has_media r2 = true /\ message_length r2 = 14
      /\ has_url r3 = true /\ emojis r3 = [128512%N] /\ emoji_count r3 = 1
      /\ user r3 = str_of_string "Alice".
Proof.
  intros [P [r1 [r2 [r3 [H [_ [Hlen _]]]]]]].
  destruct (@scenario_rows P) as [o1 [o2 [o3 [_ Hframe]]]].
  rewrite scenario_outcome, Hframe in H.
  assert (Hdf : map message_length
                    (map record_of
                         (dropna [ (o1, nth 1 (nth 0 scenario_blocks []) [],
                                        nth 2 (nth 0 scenario_blocks []) []);
                                   (o2, nth 1 (nth 1 scenario_blocks []) [],
                                        nth 2 (nth 1 scenario_blocks []) []);
                                   (o3, nth 1 (nth 2 scenario_blocks []) [],
                                        nth 2 (nth 2 scenario_blocks []) []) ]))
                = map message_length [r1; r2; r3]) by congruence.
  rewrite map_map in Hdf.
  destruct o1, o2, o3; cbn [dropna filter fst map] in Hdf; try discriminate Hdf.
  unfold record_of, enrich in Hdf. cbn [message_length snd] in Hdf.
  injection Hdf as _ Hdf _. rewrite <- Hdf in Hlen.
  vm_compute in Hlen. discriminate.
Qed.

(** ** The media flag *)

Section Media.

Context {P : Platform}.

Lemma search_unfold (p : Re.Pattern) (s : str) :
  Re.search p s
  = match Re.match_at p s with
    | Some (rest, c) => Some (s, rest, c)
    | None => match s with
              | [] => None
              | _ :: s' => Re.search p s'
              end
    end.
Proof. destruct s; reflexivity. Qed.

(** [search] succeeds exactly when the pattern matches at some position. *)
Lemma found_iff (p : Re.Pattern) (s : str) :
  found p s = true
  <-> exists before start, s = before ++ start /\ Re.match_at p start <> None.
Proof.
  unfold found. split.
  - destruct (Re.search p s) as [[[start rest] c]|] eqn:E; [|discriminate].
    intros _. apply search_some in E. destruct E as [Hm [before ->]].
    exists before, start. split; [reflexivity|]. rewrite Hm. discriminate.
  - intros [before [start [-> Hm]]].
    induction before as [|y before IH].
    + simpl app. rewrite search_unfold.
      destruct (Re.match_at p start) as [[rest c]|]; [reflexivity | contradiction].
    + rewrite search_unfold.
      destruct (Re.match_at p ((y :: before) ++ start)) as [[rest c]|];
        [reflexivity | exact IH].
Qed.

(** A run of literals matches a prefix of the text, letter case aside. *)
Lemma ms_literals (phrase : str) :
  forall s c,
    Re.ms (Re.mkFlags true false) (Patterns.seq_of (map Re.Literal phrase)) s c <> []
    <-> exists middle after,
          s = middle ++ after /\ Forall2 (fun x y => same_letter x y = true) phrase middle.
Proof.
  induction phrase as [|x phrase IH]; intros s c.
  - simpl. split.
    + intros _. exists [], s. split; [reflexivity | constructor].
    + intros _. discriminate.
  - cbn [map Patterns.seq_of fold_right Re.ms].
    fold (Patterns.seq_of (map Re.Literal phrase)).
    destruct s as [|y s'].
    + simpl. split; [contradiction|].
      intros [middle [after [E H]]]. inversion H; subst. discriminate.
    + change (Re.literal_eq (Re.mkFlags true false) x y) with (same_letter x y).
      destruct (same_letter x y) eqn:Exy.
      * simpl flat_map. rewrite app_nil_r. rewrite IH. split.
        -- intros [middle [after [-> H]]]. exists (y :: middle), after.
           split; [reflexivity | constructor; assumption].
        -- intros [middle [after [E H]]]. inversion H; subst.
           injection E as <- ->. eauto.
      * simpl. split; [contradiction|].
        intros [middle [after [E H]]]. inversion H; subst.
        injection E as <- ->. congruence.
Qed.

Lemma media_match_at (s : str) :
  Re.match_at Patterns.MEDIA s <> None
  <-> exists phrase middle after,
        In phrase PLACEHOLDERS /\ s = middle ++ after
        /\ Forall2 (fun x y => same_letter x y = true) phrase middle.
Proof.
  unfold Re.match_at, Patterns.MEDIA, Patterns.media_regex, Patterns.lits.
  cbn [Re.pat_flags Re.pat_regex Re.ms].
  set (fl := Re.mkFlags true false).
  pose proof (fun ph => ms_literals ph s []) as L. fold fl in L.
  split.
  - intros H.
    assert (Hne : forall (l1 l2 : list (str * Re.caps)),
               hd_error (l1 ++ l2) <> None -> l1 <> [] \/ hd_error l2 <> None).
    { intros [|a l1] l2 Hh; [right; exact Hh | left; discriminate]. }
    apply Hne in H. destruct H as [H | H].
    { apply L in H. destruct H as [mi [af [E F]]].
      exists (str_of_string "<Media omitted>"), mi, af.
      split; [left; reflexivity | split; assumption]. }
    apply Hne in H. destruct H as [H | H].
    { apply L in H. destruct H as [mi [af [E F]]].
      exists (str_of_string "image omitted"), mi, af.
      split; [right; left; reflexivity | split; assumption]. }
    apply Hne in H. destruct H as [H | H].
    { apply L in H. destruct H as [mi [af [E F]]].
      exists (str_of_string "video omitted"), mi, af.
      split; [right; right; left; reflexivity | split; assumption]. }
    assert (H' : Re.ms fl (Patterns.seq_of (map Re.Literal (str_of_string "sticker omitted")))
                       s [] <> []).
    { intros E. rewrite E in H. apply H. reflexivity. }
    apply L in H'. destruct H' as [mi [af [E F]]].
    exists (str_of_string "sticker omitted"), mi, af.
    split; [right; right; right; left; reflexivity | split; assumption].
  - intros [phrase [mi [af [Hin [E F]]]]].
    assert (Hl : Re.ms fl (Patterns.seq_of (map Re.Literal phrase)) s [] <> []).
    { apply L. exists mi, af. split; assumption. }
    assert (Hhd : forall (l1 l2 : list (str * Re.caps)),
               l1 <> [] -> hd_error (l1 ++ l2) <> None).
    { intros [|a l1] l2 Hh; [contradiction | discriminate]. }
    assert (Htl : forall (l1 l2 : list (str * Re.caps)),
               hd_error l2 <> None -> hd_error (l1 ++ l2) <> None).
    { intros [|a l1] l2 Hh; [exact Hh | discriminate]. }
    destruct Hin as [<- | [<- | [<- | [<- | []]]]].
    + apply Hhd. exact Hl.
    + apply Htl, Hhd. exact Hl.
    + apply Htl, Htl, Hhd. exact Hl.
    + apply Htl, Htl.
      destruct (Re.ms fl (Patterns.seq_of (map Re.Literal (str_of_string "sticker omitted")))
                      s []) as [|a l]; [contradiction|].
      apply Htl. discriminate.
Qed.

Lemma found_media (m : str) :
  found Patterns.MEDIA m = true
  <-> exists phrase, In phrase PLACEHOLDERS /\ occurs_ignoring_case phrase m.
Proof.
  rewrite found_iff. split.
  - intros [before [start [-> H]]]. apply media_match_at in H.
    destruct H as [phrase [middle [after [Hin [-> F]]]]].
    exists phrase. split; [exact Hin|]. exists before, middle, after.
    split; [reflexivity | exact F].
  - intros [phrase [Hin [before [middle [after [-> F]]]]]].
    exists before, (middle ++ after). split; [reflexivity|].
    apply media_match_at. exists phrase, middle, after.
    split; [exact Hin | split; [reflexivity | exact F]].
Qed.

End Media.

(** C9: in every row of a returned frame, [has_media] is true exactly when
    one of the four placeholder phrases occurs somewhere in the message,
    letter case aside, with or without other text around it. *)
Theorem has_media_iff_placeholder_occurs (P : Platform) (file_upload : option bytes)
        (df : DataFrame) (r : MessageRecord) :
  outcome (preprocess_chat file_upload) = inr (Some df) ->
  In r df ->
  (has_media r = true
   <-> exists phrase, In phrase PLACEHOLDERS /\ occurs_ignoring_case phrase (message r)).
Proof.
  intros H Hin. destruct (returned_row _ _ _ H Hin) as [t [u [m [-> Hv]]]].
  unfold record_of, enrich. cbn [has_media message snd].
  apply found_media.
Qed.

Lemma has_media_iff_placeholder_occurs_witness :
  outcome (@preprocess_chat sample (Some transcript_around)) = inr (Some around_frame)
  /\ In (row 0 around_frame) around_frame
  /\ has_media (row 0 around_frame) = true
  /\ exists phrase, In phrase PLACEHOLDERS
                    /\ occurs_ignoring_case phrase (message (row 0 around_frame)).
Proof.
  assert (Hrun : outcome (@preprocess_chat sample (Some transcript_around))
                 = inr (Some around_frame)) by (vm_compute; reflexivity).
  assert (Hin : In (row 0 around_frame) around_frame) by (left; reflexivity).
  split; [exact Hrun|]. split; [exact Hin|]. split; [reflexivity|].
  apply (has_media_iff_placeholder_occurs sample (Some transcript_around)
           around_frame (row 0 around_frame) Hrun Hin).
  reflexivity.
Defined.

(** ** Message boundaries *)

Section Boundaries.

Context {P : Platform}.

Lemma flat_map_map {A B C} (f : A -> B) (g : B -> list C) (l : list A) :
  flat_map g (map f l) = flat_map (fun x => g (f x)) l.
Proof.
  induction l as [|x l IH]; [reflexivity|]. simpl. rewrite IH. reflexivity.
Qed.

Lemma map_flat_map {A B C} (f : A -> list B) (g : B -> C) (l : list A) :
  map g (flat_map f l) = flat_map (fun x => map g (f x)) l.
Proof.
  induction l as [|x l IH]; [reflexivity|].
  simpl. rewrite map_app, IH. reflexivity.
Qed.

Lemma flat_map_ext_in {A B} (f g : A -> list B) (l : list A) :
  (forall x, In x l -> f x = g x) -> flat_map f l = flat_map g l.
Proof.
  induction l as [|x l IH]; intros H; [reflexivity|].
  simpl. rewrite (H x (or_introl eq_refl)), IH; [reflexivity|].
  intros y Hy. apply H. right. exact Hy.
Qed.

(** Captures pass unchanged through a pattern without groups. *)
Lemma repeat_ms_group_free step greedy :
  (forall s c, step s c = map (fun p => (fst p, c)) (step s [])) ->
  forall budget lo s c,
    Re.repeat_ms step greedy lo budget s c
    = map (fun p => (fst p, c)) (Re.repeat_ms step greedy lo budget s []).
Proof.
  intros Hstep. induction budget as [|b IH]; intros lo s c; simpl.
  - destruct (lo =? 0); reflexivity.
  - assert (Hmore :
      flat_map (fun p => Re.repeat_ms step greedy (pred lo) b (fst p) (snd p)) (step s c)
      = map (fun p => (fst p, c))
            (flat_map (fun p => Re.repeat_ms step greedy (pred lo) b (fst p) (snd p))
                      (step s []))).
    { rewrite (Hstep s c), flat_map_map, map_flat_map.
      apply flat_map_ext_in. intros x Hx. cbn [fst snd].
      rewrite (IH (pred lo) (fst x) c), (IH (pred lo) (fst x) (snd x)).
      rewrite map_map. reflexivity. }
    destruct (0 <? lo); [exact Hmore|].
    destruct greedy.
    + rewrite map_app, Hmore. reflexivity.
    + simpl. rewrite Hmore. reflexivity.
Qed.

Lemma ms_group_free fl r :
  group_free r = true ->
  forall s c, Re.ms fl r s c = map (fun p => (fst p, c)) (Re.ms fl r s []).
Proof.
  induction r as [x | | negate items | | | a IHa b IHb | a IHa b IHb
                  | lo hi a IHa | lo hi a IHa | g a IHa | a IHa | a IHa];
    intros Hg s c; simpl in Hg; try discriminate; simpl.
  - destruct s as [|y s']; [reflexivity|]. destruct (Re.literal_eq fl x y); reflexivity.
  - destruct s as [|y s']; [reflexivity|].
    destruct (Re.DOTALL fl || negb (N.eqb y LF)); reflexivity.
  - destruct s as [|y s']; [reflexivity|].
    destruct (xorb negate (existsb (Re.item_mem y) items)); reflexivity.
  - destruct s as [|y [|z s']]; try reflexivity. destruct (N.eqb y LF); reflexivity.
  - reflexivity.
  - apply andb_prop in Hg. destruct Hg as [Ha Hb].
    rewrite (IHa Ha s c), flat_map_map, map_flat_map.
    apply flat_map_ext_in. intros x Hx. cbn [fst snd].
    rewrite (IHb Hb (fst x) c), (IHb Hb (fst x) (snd x)), map_map. reflexivity.
  - apply andb_prop in Hg. destruct Hg as [Ha Hb].
    rewrite map_app, <- (IHa Ha s c), <- (IHb Hb s c). reflexivity.
  - apply repeat_ms_group_free. exact (IHa Hg).
  - apply repeat_ms_group_free. exact (IHa Hg).
  - rewrite (IHa Hg s c). destruct (Re.ms fl a s []); reflexivity.
  - rewrite (IHa Hg s c). destruct (Re.ms fl a s []); reflexivity.
Qed.

(** [.*?] under [re.DOTALL] offers every position from here on, nearest
    first. *)
Lemma repeat_any_tails (c : Re.caps) :
  forall budget s, length s <= budget ->
    Re.repeat_ms (Re.ms Patterns.dotall Re.Any) false 0 budget s c
    = map (fun t => (t, c)) (tails s).
Proof.
  remember (Re.ms Patterns.dotall Re.Any) as step eqn:Es.
  assert (Hnil : step [] c = []) by (subst; reflexivity).
  assert (Hcons : forall y s, step (y :: s) c = [(s, c)]) by (subst; reflexivity).
  clear Es.
  induction budget as [|b IH]; intros s Hlen.
  - destruct s; [reflexivity | simpl in Hlen; lia].
  - destruct s as [|y s']; simpl.
    + rewrite Hnil. reflexivity.
    + simpl in Hlen. rewrite Hcons. simpl.
      rewrite app_nil_r, (IH s') by lia. reflexivity.
Qed.

Lemma ms_lazy_group (g : nat) (s : str) (c : Re.caps) :
  Re.ms Patterns.dotall (Re.Subpattern g (Patterns.seq_of [Patterns.lazy_any])) s c
  = map (fun t => (t, (g, Re.taken s t) :: c)) (tails s).
Proof.
  cbn [Patterns.seq_of fold_right Re.ms Patterns.lazy_any Re.bound].
  rewrite repeat_any_tails by lia.
  rewrite flat_map_map. cbn [fst snd].
  rewrite map_flat_map. cbn [map fst snd].
  induction (tails s) as [|t l IH]; [reflexivity|]. simpl. rewrite IH. reflexivity.
Qed.

(** Positions at which what follows cannot match are passed over. *)
Lemma flat_map_tails_skip {B} (K : str -> list B) (pre rest : str) :
  (forall p1 p2, pre = p1 ++ p2 -> p2 <> [] -> K (p2 ++ rest) = []) ->
  flat_map K (tails (pre ++ rest)) = flat_map K (tails rest).
Proof.
  induction pre as [|y pre IH]; intros H; [reflexivity|].
  assert (H0 : K ((y :: pre) ++ rest) = []) by (apply (H [] (y :: pre) eq_refl); discriminate).
  simpl in H0 |- *. rewrite H0.
  simpl. apply IH. intros p1 p2 -> Hp2. apply (H (y :: p1) p2 eq_refl Hp2).
Qed.

Lemma taken_app (a b : str) : Re.taken (a ++ b) b = a.
Proof.
  unfold Re.taken. rewrite length_app.
  replace (length a + length b - length b) with (length a) by lia.
  rewrite firstn_app, Nat.sub_diag, firstn_all. simpl. apply app_nil_r.
Qed.

End Boundaries.

Section Blocks.

Context {P : Platform}.

Import Re Patterns.

Lemma ms_space_cons (r : regex) (y : char) (s : str) (c : caps) :
  unicode_isspace y = true ->
  ms dotall (Concat space r) (y :: s) c = ms dotall r s c.
Proof.
  intros H. cbn [ms space existsb item_mem category_mem xorb].
  rewrite H. cbn [orb flat_map fst snd]. apply app_nil_r.
Qed.

Lemma ms_literal_cons (r : regex) (x : char) (s : str) (c : caps) :
  ms dotall (Concat (Literal x) r) (x :: s) c = ms dotall r s c.
Proof.
  cbn [ms literal_eq dotall IGNORECASE]. rewrite N.eqb_refl.
  cbn [flat_map fst snd]. apply app_nil_r.
Qed.

Lemma ms_literal_other (r : regex) (x y : char) (s : str) (c : caps) :
  y <> x -> ms dotall (Concat (Literal x) r) (y :: s) c = [].
Proof.
  intros H. cbn [ms literal_eq dotall IGNORECASE].
  destruct (N.eqb_spec y x); [contradiction | reflexivity].
Qed.

Lemma ms_lookahead (t : str) (c : caps) :
  ms dotall (Concat lookahead Empty) t c = if lookahead_at t then [(t, c)] else [].
Proof.
  unfold lookahead, lookahead_at. cbn [ms].
  fold (ms dotall boundary t c). fold (ms dotall boundary t []).
  change (ms dotall boundary t c ++ ms dotall (seq_of [At_End]) t c)
    with (ms dotall (Branch boundary (seq_of [At_End])) t c).
  change (ms dotall boundary t [] ++ ms dotall (seq_of [At_End]) t [])
    with (ms dotall (Branch boundary (seq_of [At_End])) t []).
  rewrite (ms_group_free dotall (Branch boundary (seq_of [At_End])) eq_refl t c).
  destruct (ms dotall (Branch boundary (seq_of [At_End])) t []); reflexivity.
Qed.

Lemma primary_regex_shape :
  primary_regex
  = Concat (Subpattern 1 (seq_of stamp_items))
      (Concat space (Concat (Literal (ch "-")) (Concat space
        (Concat (Subpattern 2 (seq_of [lazy_any]))
          (Concat (Literal (ch ":")) (Concat space
            (Concat (Subpattern 3 (seq_of [lazy_any]))
              (Concat lookahead Empty)))))))).
Proof. reflexivity. Qed.

Lemma hd_error_app_cons {A} (x : A) (l1 l2 : list A) :
  hd_error ((x :: l1) ++ l2) = Some x.
Proof. reflexivity. Qed.

(** The message part: the body runs up to the first position at which the
    lookahead holds. *)
Lemma ms_message (body tail : str) (c : caps) :
  (forall b1 b2, body = b1 ++ b2 -> b2 <> [] -> lookahead_at (b2 ++ tail) = false) ->
  lookahead_at tail = true ->
  exists more,
    ms dotall (Concat (Subpattern 3 (seq_of [lazy_any])) (Concat lookahead Empty))
       (body ++ tail) c
    = (tail, (3, body) :: c) :: more.
Proof.
  intros Hin Hend.
  change (ms dotall (Concat (Subpattern 3 (seq_of [lazy_any])) (Concat lookahead Empty))
             (body ++ tail) c)
    with (flat_map (fun p => ms dotall (Concat lookahead Empty) (fst p) (snd p))
                   (ms dotall (Subpattern 3 (seq_of [lazy_any])) (body ++ tail) c)).
  rewrite ms_lazy_group, flat_map_map. cbn [fst snd].
  rewrite (flat_map_tails_skip
             (fun t => ms dotall (Concat lookahead Empty) t
                          ((3, taken (body ++ tail) t) :: c)) body tail).
  - destruct tail as [|y tail']; cbn [tails flat_map];
      rewrite ms_lookahead, Hend, taken_app; eexists; reflexivity.
  - intros b1 b2 E Hb2. rewrite ms_lookahead, (Hin b1 b2 E Hb2). reflexivity.
Qed.

(** The user part: the label runs up to the first colon. *)
Lemma ms_user (u rest : str) (sp : char) (r : regex) (c : caps) :
  ~ List.In (ch ":") u ->
  unicode_isspace sp = true ->
  forall x more,
    ms dotall r rest ((2, u) :: c) = x :: more ->
    exists more',
      ms dotall (Concat (Subpattern 2 (seq_of [lazy_any]))
                        (Concat (Literal (ch ":")) (Concat space r)))
         (u ++ ch ":" :: sp :: rest) c
      = x :: more'.
Proof.
  intros Hu Hsp x more Hr.
  change (ms dotall (Concat (Subpattern 2 (seq_of [lazy_any]))
                            (Concat (Literal (ch ":")) (Concat space r)))
             (u ++ ch ":" :: sp :: rest) c)
    with (flat_map (fun p => ms dotall (Concat (Literal (ch ":")) (Concat space r))
                                 (fst p) (snd p))
                   (ms dotall (Subpattern 2 (seq_of [lazy_any]))
                       (u ++ ch ":" :: sp :: rest) c)).
  rewrite ms_lazy_group, flat_map_map. cbn [fst snd].
  rewrite (flat_map_tails_skip
             (fun t => ms dotall (Concat (Literal (ch ":")) (Concat space r)) t
                          ((2, taken (u ++ ch ":" :: sp :: rest) t) :: c))
             u (ch ":" :: sp :: rest)).
  - cbn [tails flat_map].
    rewrite ms_literal_cons, (ms_space_cons _ _ _ _ Hsp), taken_app, Hr.
    eexists. reflexivity.
  - intros p1 [|y p2] E Hp2; [contradiction|].
    apply ms_literal_other. intros ->. apply Hu. rewrite E.
    apply in_or_app. right. left. reflexivity.
Qed.

(** One message at the head of the text: what the pattern matches there. *)
Lemma match_at_block (stamp u body tail : str) (sp1 sp2 sp3 : char) :
  after_stamp (stamp ++ sp1 :: ch "-" :: sp2 :: u ++ ch ":" :: sp3 :: body ++ tail)
  = Some (sp1 :: ch "-" :: sp2 :: u ++ ch ":" :: sp3 :: body ++ tail) ->
  unicode_isspace sp1 = true -> unicode_isspace sp2 = true ->
  unicode_isspace sp3 = true ->
  ~ List.In (ch ":") u ->
  (forall b1 b2, body = b1 ++ b2 -> b2 <> [] -> lookahead_at (b2 ++ tail) = false) ->
  lookahead_at tail = true ->
  exists c,
    match_at PRIMARY
             (stamp ++ sp1 :: ch "-" :: sp2 :: u ++ ch ":" :: sp3 :: body ++ tail)
    = Some (tail, c)
    /\ match_groups PRIMARY
         (stamp ++ sp1 :: ch "-" :: sp2 :: u ++ ch ":" :: sp3 :: body ++ tail) tail c
       = [stamp; u; body].
Proof.
  intros Hstamp H1 H2 H3 Hu Hin Hend.
  set (rest1 := sp1 :: ch "-" :: sp2 :: u ++ ch ":" :: sp3 :: body ++ tail) in *.
  unfold after_stamp in Hstamp.
  destruct (ms dotall (seq_of stamp_items) (stamp ++ rest1) []) as [|[r0 c0] others] eqn:Es;
    [discriminate|].
  cbn [hd_error option_map fst] in Hstamp. injection Hstamp as ->.
  destruct (ms_message body tail ((2, u) :: (1, stamp) :: c0) Hin Hend) as [more Hm].
  destruct (ms_user u (body ++ tail) sp3 _ ((1, stamp) :: c0) Hu H3 _ _ Hm) as [more' Hu'].
  exists ((3, body) :: (2, u) :: (1, stamp) :: c0). split; [|reflexivity].
  unfold match_at. cbn [pat_flags pat_regex PRIMARY]. rewrite primary_regex_shape.
  match goal with
  | |- hd_error (ms dotall (Concat ?a ?b) ?s ?c) = _ =>
    change (ms dotall (Concat a b) s c)
      with (flat_map (fun p => ms dotall b (fst p) (snd p)) (ms dotall a s c))
  end.
  match goal with
  | |- context [ms dotall (Subpattern 1 ?a) ?s ?c] =>
    change (ms dotall (Subpattern 1 a) s c)
      with (map (fun p => (fst p, (1, taken s (fst p)) :: snd p)) (ms dotall a s c))
  end.
  rewrite Es. cbn [map flat_map fst snd]. rewrite taken_app.
  unfold rest1 at 1.
  rewrite (ms_space_cons _ _ _ _ H1), ms_literal_cons, (ms_space_cons _ _ _ _ H2).
  rewrite Hu'. reflexivity.
Qed.

End Blocks.

Section Transcripts.

Context {P : Platform}.

Lemma is_empty_app {A} (l1 l2 : list A) :
  is_empty (l1 ++ l2) = is_empty l1 && is_empty l2.
Proof. destruct l1; reflexivity. Qed.

Lemma lookahead_at_nil : lookahead_at [] = true.
Proof. reflexivity. Qed.

(** Inside the text the lookahead holds only at a line break, followed by
    the prefix of a message or by nothing at all. *)
Lemma lookahead_at_cons (y : char) (t : str) :
  lookahead_at (y :: t) = N.eqb y LF && (starts_message t || is_empty t).
Proof.
  unfold lookahead_at, starts_message.
  change (Re.ms Patterns.dotall
                (Re.Branch Patterns.boundary (Patterns.seq_of [Re.At_End])) (y :: t) [])
    with (Re.ms Patterns.dotall
                (Re.Concat (Re.Literal LF)
                           (Patterns.seq_of (Patterns.stamp_items ++ Patterns.dash_items)))
                (y :: t) []
          ++ Re.ms Patterns.dotall (Patterns.seq_of [Re.At_End]) (y :: t) []).
  rewrite is_empty_app.
  destruct (N.eqb_spec y LF) as [-> | Hy].
  - rewrite ms_literal_cons.
    destruct t as [|z t']; cbn [Patterns.seq_of fold_right Re.ms flat_map is_empty].
    + rewrite andb_false_r. reflexivity.
    + rewrite andb_true_r, orb_false_r. reflexivity.
  - rewrite (ms_literal_other _ _ _ _ _ Hy).
    destruct t as [|z t']; cbn [Patterns.seq_of fold_right Re.ms flat_map is_empty].
    + destruct (N.eqb_spec y LF); [contradiction | reflexivity].
    + reflexivity.
Qed.

Lemma lines_continue_spec (body tail : str) :
  lines_continue body tail = true ->
  forall b1 b2, body = b1 ++ LF :: b2 -> starts_message (b2 ++ tail) = false.
Proof.
  revert body. intros body H b1. revert body H.
  induction b1 as [|x b1 IH]; intros body H b2 ->; simpl in H;
    apply andb_prop in H; destruct H as [H1 H2].
  - apply negb_true_iff in H1. exact H1.
  - exact (IH _ H2 b2 eq_refl).
Qed.

(** After a message at the head of the text, [findall] goes on with what
    follows it. *)
Lemma findall_block (content tail : str) (c : list (nat * str)) :
  Re.match_at Patterns.PRIMARY content = Some (tail, c) ->
  Re.pattern_findall Patterns.PRIMARY content
  = match Re.pattern_findall Patterns.PRIMARY tail with
    | inr more => inr (Re.match_groups Patterns.PRIMARY content tail c :: more)
    | inl e => inl e
    end.
Proof.
  intros H. pose proof (match_at_lt Patterns.PRIMARY _ _ _ eq_refl H) as Hlt.
  unfold Re.pattern_findall. cbn [Re.findall_loop].
  rewrite search_unfold, H.
  destruct (Nat.ltb_spec (length tail) (length content)); [|lia].
  rewrite (findall_loop_fuel Patterns.PRIMARY eq_refl (length content) (S (length tail)))
    by lia.
  reflexivity.
Qed.

End Transcripts.

(** * The other functions of utils.py *)

(** ** Order, [sorted] and [unique] *)

(** [str] comparison of Python: code point by code point. *)
Fixpoint str_leb (a b : str) : bool :=
  match a, b with
  | [], _ => true
  | _ :: _, [] => false
  | x :: a', y :: b' =>
    if N.ltb x y then true
    else if N.eqb x y then str_leb a' b'
    else false
  end.

Section Lists.

Variable A : Type.
Variable leb : A -> A -> bool.
Variable eqb : A -> A -> bool.

(** [sorted(l)]: ascending and stable. *)
Fixpoint insert (x : A) (l : list A) : list A :=
  match l with
  | [] => [x]
  | y :: l' => if leb x y then x :: l else y :: insert x l'
  end.

Definition sorted (l : list A) : list A := fold_right insert [] l.

(** [Series.unique()]: the distinct values, in order of first appearance. *)
Fixpoint unique (l : list A) : list A :=
  match l with
  | [] => []
  | x :: l' => x :: filter (fun y => negb (eqb x y)) (unique l')
  end.

(** [Series.nunique()]. *)
Definition nunique (l : list A) : nat := length (unique l).

End Lists.

Arguments insert {A}.
Arguments sorted {A}.
Arguments unique {A}.
Arguments nunique {A}.

(** Lines 80-84. A frame of this development always has its [user] column,
    so the test for a missing column never fires. *)
Definition identify_group_members (df : option DataFrame) : list str :=
  match df with
  | None => []
  | Some d => sorted str_leb (unique str_eqb (map user d))
  end.

(** Lines 114-123. *)
Definition identify_chat_type (df : option DataFrame) : string :=
  match df with
  | None => "Unknown"
  | Some d =>
    let unique_users := nunique str_eqb (map user d) in
    if 2 <? unique_users then "Group Chat" else "Individual Chat"
  end.

(** ** Facts about the order and the two list functions *)

Lemma str_eqb_eq (a b : str) : str_eqb a b = true <-> a = b.
Proof.
  revert b. induction a as [|x a IH]; intros [|y b]; simpl; split; intros H;
    try reflexivity; try discriminate.
  - apply andb_prop in H. destruct H as [H1 H2].
    apply N.eqb_eq in H1. apply IH in H2. subst. reflexivity.
  - injection H as -> ->. unfold char_eqb. rewrite N.eqb_refl. simpl.
    apply IH. reflexivity.
Qed.

Lemma str_leb_refl (a : str) : str_leb a a = true.
Proof.
  induction a as [|x a IH]; [reflexivity|].
  simpl. rewrite N.ltb_irrefl, N.eqb_refl. exact IH.
Qed.

Lemma str_leb_total (a b : str) : str_leb a b = false -> str_leb b a = true.
Proof.
  revert b. induction a as [|x a IH]; intros [|y b]; simpl; intros H;
    try reflexivity; try discriminate.
  destruct (N.ltb_spec x y); [discriminate|].
  destruct (N.eqb_spec x y) as [-> | Hne].
  - rewrite N.ltb_irrefl, N.eqb_refl. apply IH. exact H.
  - destruct (N.ltb_spec y x); [reflexivity | lia].
Qed.

Lemma str_leb_trans (a b c : str) :
  str_leb a b = true -> str_leb b c = true -> str_leb a c = true.
Proof.
  revert b c. induction a as [|x a IH]; intros [|y b] [|z c]; simpl;
    intros H1 H2; try reflexivity; try discriminate.
  destruct (N.ltb_spec x y), (N.ltb_spec y z);
    destruct (N.eqb_spec x y), (N.eqb_spec y z); try discriminate; try lia; subst.
  - destruct (N.ltb_spec x z); [reflexivity | lia].
  - destruct (N.ltb_spec x z); [reflexivity | lia].
  - destruct (N.ltb_spec y z); [reflexivity | lia].
  - rewrite N.ltb_irrefl, N.eqb_refl. exact (IH _ _ H1 H2).
Qed.

Lemma str_leb_antisym (a b : str) :
  str_leb a b = true -> str_leb b a = true -> a = b.
Proof.
  revert b. induction a as [|x a IH]; intros [|y b]; simpl; intros H1 H2;
    try reflexivity; try discriminate.
  destruct (N.ltb_spec x y), (N.ltb_spec y x);
    destruct (N.eqb_spec x y), (N.eqb_spec y x); try discriminate; try lia; subst.
  f_equal. exact (IH _ H1 H2).
Qed.

Section ListFacts.

Variable A : Type.
Variable leb : A -> A -> bool.
Variable eqb : A -> A -> bool.
Hypothesis eqb_eq : forall x y, eqb x y = true <-> x = y.
Hypothesis leb_total : forall x y, leb x y = false -> leb y x = true.
Hypothesis leb_trans : forall x y z, leb x y = true -> leb y z = true -> leb x z = true.

Lemma insert_In (x y : A) (l : list A) : In y (insert leb x l) <-> y = x \/ In y l.
Proof.
  induction l as [|z l IH]; simpl.
  - intuition congruence.
  - destruct (leb x z); simpl; [intuition congruence|].
    rewrite IH. intuition congruence.
Qed.

Lemma sorted_In (y : A) (l : list A) : In y (sorted leb l) <-> In y l.
Proof.
  induction l as [|x l IH]; simpl; [reflexivity|].
  rewrite insert_In, IH. intuition congruence.
Qed.

Lemma insert_length (x : A) (l : list A) : length (insert leb x l) = S (length l).
Proof.
  induction l as [|z l IH]; simpl; [reflexivity|].
  destruct (leb x z); simpl; [reflexivity | rewrite IH; reflexivity].
Qed.

Lemma sorted_length (l : list A) : length (sorted leb l) = length l.
Proof.
  induction l as [|x l IH]; simpl; [reflexivity|].
  rewrite insert_length, IH. reflexivity.
Qed.

Lemma insert_NoDup (x : A) (l : list A) :
  ~ In x l -> NoDup l -> NoDup (insert leb x l).
Proof.
  induction l as [|z l IH]; simpl; intros Hx Hl.
  - constructor; [intros [] | constructor].
  - destruct (leb x z).
    + constructor; [simpl; exact Hx | exact Hl].
    + inversion Hl as [|? ? Hz Hl']; subst. constructor.
      * rewrite insert_In. intros [-> | Hin]; [apply Hx; left; reflexivity | contradiction].
      * apply IH; [intros Hin; apply Hx; right; exact Hin | exact Hl'].
Qed.

Lemma sorted_NoDup (l : list A) : NoDup l -> NoDup (sorted leb l).
Proof.
  induction 1 as [|x l Hx Hl IH]; simpl; [constructor|].
  apply insert_NoDup; [rewrite sorted_In; exact Hx | exact IH].
Qed.

Lemma insert_sorted (x : A) (l : list A) :
  StronglySorted (fun a b => leb a b = true) l ->
  StronglySorted (fun a b => leb a b = true) (insert leb x l).
Proof.
  induction 1 as [|z l Hl IH Hz]; simpl.
  - constructor; constructor.
  - destruct (leb x z) eqn:E.
    + constructor; [constructor; assumption|].
      constructor; [exact E|].
      rewrite Forall_forall in Hz |- *. intros y Hy. exact (leb_trans _ _ _ E (Hz y Hy)).
    + constructor; [exact IH|].
      rewrite Forall_forall in Hz |- *. intros y Hy. apply insert_In in Hy.
      destruct Hy as [-> | Hy]; [exact (leb_total _ _ E) | exact (Hz y Hy)].
Qed.

Lemma sorted_sorted (l : list A) :
  StronglySorted (fun a b => leb a b = true) (sorted leb l).
Proof.
  induction l as [|x l IH]; simpl; [constructor | apply insert_sorted; exact IH].
Qed.

Lemma unique_In (y : A) (l : list A) : In y (unique eqb l) <-> In y l.
Proof.
  induction l as [|x l IH]; simpl; [reflexivity|].
  rewrite filter_In, IH. split.
  - intros [-> | [H _]]; [left; reflexivity | right; exact H].
  - intros [-> | H]; [left; reflexivity|].
    destruct (eqb x y) eqn:E.
    + left. apply eqb_eq. exact E.
    + right. split; [exact H | reflexivity].
Qed.

Lemma unique_NoDup (l : list A) : NoDup (unique eqb l).
Proof.
  induction l as [|x l IH]; simpl; constructor.
  - rewrite filter_In. intros [_ H].
    assert (E : eqb x x = true) by (apply eqb_eq; reflexivity).
    rewrite E in H. discriminate.
  - apply NoDup_filter. exact IH.
Qed.

(** A sorted list without repetition ascends strictly. *)
Lemma sorted_strictly (l : list A) :
  NoDup l -> StronglySorted (fun a b => leb a b = true) l ->
  StronglySorted (fun a b => leb a b = true /\ a <> b) l.
Proof.
  induction l as [|x l IH]; intros Hn Hs; [constructor|].
  inversion Hn as [|? ? Hx Hn']; subst. inversion Hs as [|? ? Hs' Hx']; subst.
  constructor; [exact (IH Hn' Hs')|].
  rewrite Forall_forall in Hx' |- *. intros y Hy. split; [exact (Hx' y Hy)|].
  intros ->. contradiction.
Qed.

End ListFacts.

(** ** [identify_group_members] and [identify_chat_type] *)

Lemma members_rows (df : DataFrame) :
  forall u, In u (identify_group_members (Some df))
            <-> exists r, In r df /\ user r = u.
Proof.
  intros u. unfold identify_group_members.
  rewrite sorted_In, (unique_In _ str_eqb str_eqb_eq), in_map_iff.
  split; intros [r [H1 H2]]; exists r; split; assumption.
Qed.

(** X1: the members of a frame are exactly the user labels of its rows, each
    once, in strictly ascending order of [str] comparison. *)
Theorem members_sorted_and_distinct (df : DataFrame) :
  StronglySorted (fun a b => str_leb a b = true /\ a <> b)
                 (identify_group_members (Some df))
  /\ forall u, In u (identify_group_members (Some df))
               <-> exists r, In r df /\ user r = u.
Proof.
  split.
  - unfold identify_group_members. apply sorted_strictly.
    + apply sorted_NoDup. apply (unique_NoDup _ str_eqb str_eqb_eq).
    + apply sorted_sorted; [exact str_leb_total | exact str_leb_trans].
  - exact (members_rows df).
Qed.

Lemma three_distinct_in_two {A} (x y a b c : A) :
  In a [x; y] -> In b [x; y] -> In c [x; y] -> a <> b -> a <> c -> b <> c -> False.
Proof.
  simpl. intros Ha Hb Hc Hab Hac Hbc.
  destruct Ha as [<- | [<- | []]], Hb as [<- | [<- | []]], Hc as [<- | [<- | []]];
    congruence.
Qed.

(** X2: a frame is a ["Group Chat"] exactly when three of its rows have three
    different user labels; every other frame, the empty one included, is an
    ["Individual Chat"], and no frame at all is ["Unknown"]. *)
Theorem group_chat_iff_three_users (df : DataFrame) :
  (identify_chat_type (Some df) = "Group Chat"%string
   <-> exists r1 r2 r3,
         In r1 df /\ In r2 df /\ In r3 df
         /\ user r1 <> user r2 /\ user r1 <> user r3 /\ user r2 <> user r3)
  /\ (identify_chat_type (Some df) = "Group Chat"%string
      \/ identify_chat_type (Some df) = "Individual Chat"%string)
  /\ identify_chat_type None = "Unknown"%string.
Proof.
  unfold identify_chat_type, nunique.
  pose proof (unique_NoDup _ str_eqb str_eqb_eq (map user df)) as Hn.
  pose proof (fun u => unique_In _ str_eqb str_eqb_eq u (map user df)) as Hin.
  split; [|split; [destruct (2 <? _); auto | reflexivity]].
  destruct (unique str_eqb (map user df)) as [|x [|y [|z l]]] eqn:E; simpl.
  - split; [discriminate|]. intros [r1 [_ [_ [H1 _]]]].
    apply (in_map user) in H1. apply Hin in H1. destruct H1.
  - split; [discriminate|]. intros [r1 [r2 [_ [H1 [H2 [_ [Hne _]]]]]]].
    apply (in_map user), Hin in H1. apply (in_map user), Hin in H2.
    destruct H1 as [E1 | []], H2 as [E2 | []]. congruence.
  - split; [discriminate|]. intros [r1 [r2 [r3 [H1 [H2 [H3 [Hab [Hac Hbc]]]]]]]].
    apply (in_map user), Hin in H1. apply (in_map user), Hin in H2.
    apply (in_map user), Hin in H3.
    exfalso. exact (three_distinct_in_two _ _ _ _ _ H1 H2 H3 Hab Hac Hbc).
  - split; [intros _ | reflexivity].
    assert (Hx : In x (map user df)) by (apply Hin; simpl; auto).
    assert (Hy : In y (map user df)) by (apply Hin; simpl; auto).
    assert (Hz : In z (map user df)) by (apply Hin; simpl; auto).
    apply in_map_iff in Hx, Hy, Hz.
    destruct Hx as [r1 [E1 H1]], Hy as [r2 [E2 H2]], Hz as [r3 [E3 H3]].
    exists r1, r2, r3.
    inversion Hn as [|? ? Hx Hn']. inversion Hn' as [|? ? Hy Hn''].
    split; [exact H1|]. split; [exact H2|]. split; [exact H3|].
    rewrite E1, E2, E3. split; [|split].
    + intros Heq. apply Hx. left. symmetry. exact Heq.
    + intros Heq. apply Hx. right. left. symmetry. exact Heq.
    + intros Heq. apply Hy. left. symmetry. exact Heq.
Qed.

(** ** Trimmed user labels *)

Lemma lstrip_head (s : str) (c : char) (rest : str) :
  lstrip s = c :: rest -> unicode_isspace c = false.
Proof.
  induction s as [|x s IH]; simpl; [discriminate|].
  destruct (unicode_isspace x) eqn:E; [exact IH|].
  intros H. injection H as <- _. exact E.
Qed.

Lemma lstrip_suffix (s : str) : exists before, s = before ++ lstrip s.
Proof.
  induction s as [|x s [before IH]]; simpl; [exists []; reflexivity|].
  destruct (unicode_isspace x).
  - exists (x :: before). simpl. rewrite <- IH. reflexivity.
  - exists []. reflexivity.
Qed.

Lemma lstrip_fixed (s : str) :
  (forall c rest, s = c :: rest -> unicode_isspace c = false) -> lstrip s = s.
Proof.
  destruct s as [|x s]; [reflexivity|].
  intros H. simpl. rewrite (H x s eq_refl). reflexivity.
Qed.

Lemma strip_head (s : str) (c : char) (rest : str) :
  strip s = c :: rest -> unicode_isspace c = false.
Proof.
  unfold strip. intros H.
  destruct (lstrip_suffix (rev (lstrip s))) as [before E].
  apply (f_equal (@rev N)) in E. rewrite rev_involutive, rev_app_distr, H in E.
  simpl in E. exact (lstrip_head _ _ _ E).
Qed.

Lemma strip_last (s : str) (c : char) (init : str) :
  strip s = init ++ [c] -> unicode_isspace c = false.
Proof.
  unfold strip. intros H.
  apply (f_equal (@rev N)) in H. rewrite rev_involutive, rev_app_distr in H.
  simpl in H. exact (lstrip_head _ _ _ H).
Qed.

Lemma strip_strip (s : str) : strip (strip s) = strip s.
Proof.
  assert (H1 : lstrip (strip s) = strip s).
  { apply lstrip_fixed. intros c rest E. exact (strip_head _ _ _ E). }
  assert (H2 : lstrip (rev (strip s)) = rev (strip s)).
  { apply lstrip_fixed. intros c rest E.
    apply (f_equal (@rev N)) in E. rewrite rev_involutive in E. simpl in E.
    exact (strip_last _ _ _ E). }
  unfold strip at 1. rewrite H1, H2. apply rev_involutive.
Qed.

(** X3: in a frame returned by [preprocess_chat] every user label is
    trimmed, and so is every entry of [identify_group_members]: it neither
    begins nor ends with a white-space character, and stripping it again
    changes nothing. *)
Theorem members_are_trimmed (P : Platform) (file_upload : option bytes)
        (df : DataFrame) (u : str) :
  outcome (preprocess_chat file_upload) = inr (Some df) ->
  (exists r, In r df /\ user r = u) \/ In u (identify_group_members (Some df)) ->
  strip u = u
  /\ (forall c rest, u = c :: rest -> unicode_isspace c = false)
  /\ (forall c init, u = init ++ [c] -> unicode_isspace c = false).
Proof.
  intros H Hu.
  assert (Hr : exists r, In r df /\ user r = u).
  { destruct Hu as [Hu | Hu]; [exact Hu|].
    apply (members_rows df u). exact Hu. }
  destruct Hr as [r [Hin <-]].
  destruct (returned_row _ _ _ H Hin) as [t [u0 [m [-> _]]]].
  unfold record_of, enrich. cbn [user].
  split; [apply strip_strip|]. split.
  - intros c rest E. exact (strip_head _ _ _ E).
  - intros c init E. exact (strip_last _ _ _ E).
Qed.

Definition transcript_padded : bytes :=
  bytes_of_string "1/2/23, 9:05 AM -   Bob : hi".

Definition padded_frame : DataFrame := Eval vm_compute in sample_frame transcript_padded.

Lemma members_are_trimmed_witness :
  outcome (@preprocess_chat sample (Some transcript_padded)) = inr (Some padded_frame)
  /\ identify_group_members (Some padded_frame) = [str_of_string "Bob"]
  /\ strip (str_of_string "Bob") = str_of_string "Bob".
Proof.
  assert (Hrun : outcome (@preprocess_chat sample (Some transcript_padded))
                 = inr (Some padded_frame)) by (vm_compute; reflexivity).
  split; [exact Hrun|]. split; [reflexivity|].
  apply (members_are_trimmed sample (Some transcript_padded) padded_frame
           (str_of_string "Bob") Hrun).
  right. left. reflexivity.
Defined.

(** ** How many rows come back *)

Lemma filter_combine_length {A B} (f : A -> bool) (l1 : list A) :
  forall l2 : list B,
    length l1 = length l2 ->
    length (filter (fun x => f (fst x)) (combine l1 l2)) = length (filter f l1).
Proof.
  induction l1 as [|a l1 IH]; intros [|b l2] H; simpl in *; try reflexivity;
    try discriminate.
  injection H as H. destruct (f a); simpl; rewrite (IH l2 H); reflexivity.
Qed.

(** X4: when the primary pattern finds blocks, a frame is returned, never
    [None], with as many rows as there are blocks whose timestamp converts.
    If no timestamp converts the frame is empty: the caller gets an empty
    frame, not the [None] of line 43. *)
Theorem frame_has_one_row_per_converted_block (P : Platform) (raw : bytes)
        (matches : list (list str)) :
  Re.findall (str_of_string pattern) (decoded raw) (Re.mkFlags false true) = inr matches ->
  matches <> [] ->
  exists df,
    outcome (preprocess_chat (Some raw)) = inr (Some df)
    /\ length df
       = length (filter present (to_datetime (map (fun m => nth 0 m []) matches)))
    /\ ((forall o, In o (to_datetime (map (fun m => nth 0 m []) matches)) -> o = None)
        -> df = []).
Proof.
  intros H Hne. rewrite findall_pattern in H.
  exists (frame_of matches). split; [|split].
  - rewrite preprocess_chat_upload. unfold outcome, parse. cbn [snd]. rewrite H.
    destruct matches; [contradiction | reflexivity].
  - rewrite frame_of_converted, length_map. unfold converted.
    apply filter_combine_length.
    rewrite to_datetime_length, length_map. reflexivity.
  - intros Hall. rewrite frame_of_converted. unfold converted.
    assert (E : forall (T : list (option Timestamp)) (l : list (list str)),
               (forall o, In o T -> o = None) ->
               filter (fun x => present (fst x)) (combine T l) = []).
    { induction T as [|o T IH]; intros l HT; [reflexivity|].
      destruct l as [|m l]; [reflexivity|]. simpl.
      rewrite (HT o (or_introl eq_refl)). simpl.
      apply IH. intros o' Ho'. apply HT. right. exact Ho'. }
    rewrite (E _ _ Hall). reflexivity.
Qed.

Definition transcript_no_valid_date : bytes :=
  bytes_of_string "1/32/23, 9:06 AM - Bob: never sent" ++ [x0a] ++
  bytes_of_string "13/13/23, 9:07 AM - Bob: nor this".

Definition no_valid_date_blocks : list (list str) :=
  Eval vm_compute in sample_blocks transcript_no_valid_date.

Lemma frame_has_one_row_per_converted_block_witness :
  length no_valid_date_blocks = 2
  /\ outcome (@preprocess_chat sample (Some transcript_no_valid_date)) = inr (Some []).
Proof.
  split; [reflexivity|].
  destruct (frame_has_one_row_per_converted_block sample transcript_no_valid_date
              no_valid_date_blocks) as [df [Hrun [_ Hempty]]].
  - vm_compute. reflexivity.
  - discriminate.
  - rewrite Hrun, Hempty; [reflexivity|].
    intros o Ho. cbv - [In] in Ho.
    repeat (destruct Ho as [<- | Ho]; [reflexivity|]). destruct Ho.
Defined.

(** ** Reading the bytes *)

Lemma utf_8_with_mark (raw : bytes) :
  Codecs.utf_8 ([xef; xbb; xbf] ++ raw) = option_map (cons 65279%N) (Codecs.utf_8 raw).
Proof. reflexivity. Qed.

(** X5: reading an upload never fails and never returns [None]. The text is
    the UTF-8 decoding of the bytes when they are UTF-8; otherwise the second
    codec fails as well and the text is the Latin-1 reading, one code point
    per byte. *)
Theorem upload_is_always_read (raw : bytes) :
  exists content,
    outcome (read_content raw) = inr (Some content)
    /\ (Codecs.utf_8 raw = Some content /\ calls (read_content raw) = [Decode "utf-8"]
        \/ Codecs.utf_8 raw = None /\ Codecs.utf_8_sig raw = None
           /\ content = map Byte.to_N raw /\ length content = length raw
           /\ calls (read_content raw)
              = [Decode "utf-8"; Decode "utf-8-sig"; Decode "latin-1"]).
Proof.
  exists (decoded raw). rewrite read_content_decoded.
  unfold outcome, calls, decoded, decode_calls. cbn [fst snd].
  split; [reflexivity|].
  destruct (Codecs.utf_8 raw) as [content|] eqn:E.
  - left. split; reflexivity.
  - right. split; [reflexivity|]. split; [exact (utf_8_sig_fails raw E)|].
    split; [reflexivity|]. split; [apply length_map | reflexivity].
Qed.

(** X6: a byte-order mark is never removed. A UTF-8 upload that begins with
    one is read by the first codec, and its text begins with U+FEFF. *)
Theorem byte_order_mark_is_kept (raw : bytes) (content : str) :
  Codecs.utf_8 raw = Some content ->
  outcome (read_content ([xef; xbb; xbf] ++ raw)) = inr (Some (65279%N :: content))
  /\ calls (read_content ([xef; xbb; xbf] ++ raw)) = [Decode "utf-8"]
  /\ Codecs.utf_8_sig ([xef; xbb; xbf] ++ raw) = Some content.
Proof.
  intros H. rewrite read_content_decoded.
  unfold outcome, calls, decoded, decode_calls. cbn [fst snd].
  rewrite utf_8_with_mark, H. cbn [option_map].
  split; [reflexivity|]. split; [reflexivity|].
  unfold Codecs.utf_8_sig, Codecs.utf_8 in *. simpl. exact H.
Qed.

Lemma byte_order_mark_is_kept_witness :
  outcome (read_content ([xef; xbb; xbf] ++ bytes_of_string "hi"))
  = inr (Some (65279%N :: str_of_string "hi")).
Proof.
  apply (byte_order_mark_is_kept (bytes_of_string "hi") (str_of_string "hi")).
  reflexivity.
Defined.

(** ** The URL flag *)

Section Url.

Context {P : Platform}.

Import Re Patterns.

Lemma ms_plain_literal (x y : char) (r : regex) (s : str) (c : caps) :
  ms no_flags (Concat (Literal x) r) (y :: s) c
  = if N.eqb y x then ms no_flags r s c else [].
Proof.
  cbn [ms literal_eq no_flags IGNORECASE].
  destruct (N.eqb y x); cbn [flat_map fst snd]; [apply app_nil_r | reflexivity].
Qed.

Lemma ms_plain_literal_nonempty (x : char) (r : regex) (s : str) (c : caps) :
  ms no_flags (Concat (Literal x) r) s c <> []
  <-> exists s', s = x :: s' /\ ms no_flags r s' c <> [].
Proof.
  destruct s as [|y s].
  - split; [intros H; exfalso; apply H; reflexivity | intros [s' [E _]]; discriminate].
  - rewrite ms_plain_literal. destruct (N.eqb_spec y x) as [-> | Hne].
    + split; [intros H; exists s; split; [reflexivity | exact H]|].
      intros [s' [E H]]. injection E as <-. exact H.
    + split; [intros H; exfalso; apply H; reflexivity|].
      intros [s' [E _]]. injection E as E _. contradiction.
Qed.

Lemma ms_optional_literal (x : char) (r : regex) (s : str) (c : caps) :
  ms no_flags (Concat (Max_Repeat 0 (Some 1) (Literal x)) r) s c <> []
  <-> (exists s', s = x :: s' /\ ms no_flags r s' c <> []) \/ ms no_flags r s c <> [].
Proof.
  cbn [ms bound repeat_ms Nat.ltb Nat.leb Nat.eqb pred literal_eq no_flags IGNORECASE].
  destruct s as [|y s].
  - cbn [flat_map app fst snd]. rewrite app_nil_r. split; [auto|].
    intros [[s' [E _]] | H]; [discriminate | exact H].
  - destruct (N.eqb_spec y x) as [-> | Hne]; cbn [flat_map app fst snd].
    + rewrite !app_nil_r.
      destruct (ms no_flags r s c) as [|p l] eqn:E; cbn [app].
      * split; [auto|]. intros [[s' [E' H]] | H]; [|exact H].
        injection E' as <-. rewrite E in H. contradiction.
      * split; [|discriminate]. intros _. left. exists s. split; [reflexivity|].
        rewrite E. discriminate.
    + rewrite app_nil_r. split; [auto|].
      intros [[s' [E _]] | H]; [|exact H]. injection E as E _. contradiction.
Qed.

Lemma repeat_ms_from_zero step greedy budget (s : str) (c : caps) :
  repeat_ms step greedy 0 budget s c <> [].
Proof.
  destruct budget as [|b]; simpl; [discriminate|].
  destruct greedy; [|discriminate].
  intros H. apply app_eq_nil in H. destruct H as [_ H]. discriminate.
Qed.

Lemma ms_not_space_run (s : str) (c : caps) :
  ms no_flags (Concat (Max_Repeat 1 None (In true [Set_Category Category_Space])) Empty) s c
  <> []
  <-> exists y s', s = y :: s' /\ unicode_isspace y = false.
Proof.
  change (ms no_flags
             (Concat (Max_Repeat 1 None (In true [Set_Category Category_Space])) Empty) s c)
    with (flat_map (fun p : str * caps => [(fst p, snd p)])
            (repeat_ms (ms no_flags (In true [Set_Category Category_Space])) true 1
                       (1 + length s) s c)).
  remember (ms no_flags (In true [Set_Category Category_Space])) as step.
  assert (Hnil : forall c0, step [] c0 = []) by (subst; reflexivity).
  assert (Hcons : forall y s' c0,
             step (y :: s') c0 = if unicode_isspace y then [] else [(s', c0)]).
  { subst. intros y s' c0. cbn [ms existsb item_mem category_mem].
    destruct (unicode_isspace y); reflexivity. }
  clear Heqstep.
  assert (Hflat : forall l : list (str * caps),
             flat_map (fun p : str * caps => [(fst p, snd p)]) l <> [] <-> l <> []).
  { intros [|p l]; simpl; split; intros H; try contradiction; discriminate. }
  rewrite Hflat.
  destruct s as [|y s']; cbn [repeat_ms Nat.ltb Nat.leb length Nat.add pred].
  - rewrite Hnil. cbn [flat_map]. split; [contradiction|].
    intros [y [s' [E _]]]. discriminate.
  - rewrite Hcons. destruct (unicode_isspace y) eqn:E; cbn [flat_map app fst snd].
    + split; [contradiction|]. intros [y' [s'' [E' H]]]. injection E' as <- _. congruence.
    + split; [intros _; exists y, s'; split; [reflexivity | exact E]|].
      intros _. rewrite app_nil_r. intros H.
      apply app_eq_nil in H. destruct H as [_ H]. discriminate.
Qed.

Lemma url_match_at (s : str) :
  match_at URL s <> None
  <-> exists y rest,
        (s = str_of_string "http://" ++ y :: rest
         \/ s = str_of_string "https://" ++ y :: rest)
        /\ unicode_isspace y = false.
Proof.
  unfold match_at. cbn [pat_flags pat_regex URL]. unfold url_regex.
  cbn [seq_of fold_right app map str_of_string].
  set (tail := Concat (Literal (ch ":")) (Concat (Literal (ch "/")) (Concat (Literal (ch "/"))
                (Concat (Max_Repeat 1 None (In true [Set_Category Category_Space])) Empty)))).
  assert (Htail : forall t c,
             ms no_flags tail t c <> []
             <-> exists y rest, t = str_of_string "://" ++ y :: rest
                                /\ unicode_isspace y = false).
  { intros t c. unfold tail.
    rewrite ms_plain_literal_nonempty. split.
    - intros [t1 [-> H]]. apply ms_plain_literal_nonempty in H. destruct H as [t2 [-> H]].
      apply ms_plain_literal_nonempty in H. destruct H as [t3 [-> H]].
      apply ms_not_space_run in H. destruct H as [y [rest [-> Hy]]].
      exists y, rest. split; [reflexivity | exact Hy].
    - intros [y [rest [-> Hy]]]. eexists. split; [reflexivity|].
      apply ms_plain_literal_nonempty. eexists. split; [reflexivity|].
      apply ms_plain_literal_nonempty. eexists. split; [reflexivity|].
      apply ms_not_space_run. exists y, rest. split; [reflexivity | exact Hy]. }
  match goal with
  | |- hd_error (ms no_flags (Concat (Subpattern 1 ?X) Empty) s []) <> None <-> _ =>
    assert (Hcore : hd_error (ms no_flags (Concat (Subpattern 1 X) Empty) s []) <> None
                    <-> ms no_flags X s [] <> [])
  end.
  { cbn [ms]. 
    match goal with
    | |- hd_error (flat_map _ (map _ ?l)) <> None <-> _ => destruct l as [|p l']
    end; [split; intros H; contradiction | split; intros _; discriminate]. }
  rewrite Hcore. clear Hcore.
  rewrite ms_plain_literal_nonempty. split.
  - intros [s1 [-> H]]. apply ms_plain_literal_nonempty in H. destruct H as [s2 [-> H]].
    apply ms_plain_literal_nonempty in H. destruct H as [s3 [-> H]].
    apply ms_plain_literal_nonempty in H. destruct H as [s4 [-> H]].
    apply ms_optional_literal in H. destruct H as [[s5 [-> H]] | H].
    + apply Htail in H. destruct H as [y [rest [-> Hy]]].
      exists y, rest. split; [right; reflexivity | exact Hy].
    + apply Htail in H. destruct H as [y [rest [-> Hy]]].
      exists y, rest. split; [left; reflexivity | exact Hy].
  - intros [y [rest [[-> | ->] Hy]]].
    + eexists. split; [reflexivity|].
      apply ms_plain_literal_nonempty. eexists. split; [reflexivity|].
      apply ms_plain_literal_nonempty. eexists. split; [reflexivity|].
      apply ms_plain_literal_nonempty. eexists. split; [reflexivity|].
      apply ms_optional_literal. right.
      apply Htail. exists y, rest. split; [reflexivity | exact Hy].
    + eexists. split; [reflexivity|].
      apply ms_plain_literal_nonempty. eexists. split; [reflexivity|].
      apply ms_plain_literal_nonempty. eexists. split; [reflexivity|].
      apply ms_plain_literal_nonempty. eexists. split; [reflexivity|].
      apply ms_optional_literal. left. eexists. split; [reflexivity|].
      apply Htail. exists y, rest. split; [reflexivity | exact Hy].
Qed.

End Url.

(** X7: in every row of a returned frame, [has_url] is true exactly when the
    message holds ["http://"] or ["https://"] (in lower case) directly
    followed by a character that is not white space. The scheme alone, or
    followed by white space or by the end of the message, does not count. *)
Theorem has_url_iff_scheme_occurs (P : Platform) (file_upload : option bytes)
        (df : DataFrame) (r : MessageRecord) :
  outcome (preprocess_chat file_upload) = inr (Some df) ->
  In r df ->
  (has_url r = true
   <-> exists before y after,
         (message r = before ++ str_of_string "http://" ++ y :: after
          \/ message r = before ++ str_of_string "https://" ++ y :: after)
         /\ unicode_isspace y = false).
Proof.
  intros H Hin. destruct (returned_row _ _ _ H Hin) as [t [u [m [-> Hv]]]].
  unfold record_of, enrich. cbn [has_url message snd].
  rewrite found_iff. split.
  - intros [before [start [-> Hm]]]. apply url_match_at in Hm.
    destruct Hm as [y [rest [[-> | ->] Hy]]]; exists before, y, rest; auto.
  - intros [before [y [after [[-> | ->] Hy]]]].
    + exists before, (str_of_string "http://" ++ y :: after). split; [reflexivity|].
      apply url_match_at. exists y, after. auto.
    + exists before, (str_of_string "https://" ++ y :: after). split; [reflexivity|].
      apply url_match_at. exists y, after. auto.
Qed.

Lemma has_url_iff_scheme_occurs_witness :
  outcome (@preprocess_chat sample (Some scenario)) = inr (Some scenario_frame)
  /\ In (row 2 scenario_frame) scenario_frame
  /\ (has_url (row 2 scenario_frame) = true
      <-> exists before y after,
            (message (row 2 scenario_frame)
             = before ++ str_of_string "http://" ++ y :: after
             \/ message (row 2 scenario_frame)
                = before ++ str_of_string "https://" ++ y :: after)
            /\ unicode_isspace y = false).
Proof.
  assert (Hrun : outcome (@preprocess_chat sample (Some scenario))
                 = inr (Some scenario_frame)) by (vm_compute; reflexivity).
  assert (Hin : In (row 2 scenario_frame) scenario_frame)
    by (right; right; left; reflexivity).
  split; [exact Hrun|]. split; [exact Hin|].
  exact (has_url_iff_scheme_occurs sample (Some scenario) scenario_frame
           (row 2 scenario_frame) Hrun Hin).
Defined.

(** * Transcripts of several messages *)

(** A message of a transcript: its timestamp, the label of its sender and
    its body. *)
Record Block := mkBlock { b_stamp : str; b_label : str; b_body : str }.

Definition fields (b : Block) : list str := [b_stamp b; b_label b; b_body b].

Section Written.

Context {P : Platform}.

Definition decimals (lo hi : nat) (ds : str) : Prop :=
  lo <= length ds <= hi /\ Forall (fun d => Re.unicode_isdecimal d = true) ds.

(** A timestamp of the 12-hour dialect: date, comma, time with or without
    seconds, and the AM or PM marker. *)
Definition written_stamp (st : str) : Prop :=
  exists mo dd yy hh mi sec sp1 sp2 a m,
    st = mo ++ ch "/" :: dd ++ ch "/" :: yy ++ ch "," :: sp1 :: hh ++ ch ":" :: mi
            ++ sec ++ [sp2; a; m]
    /\ decimals 1 2 mo /\ decimals 1 2 dd /\ decimals 2 4 yy
    /\ decimals 1 2 hh /\ decimals 2 2 mi
    /\ (sec = [] \/ exists ss, sec = ch ":" :: ss /\ decimals 2 2 ss)
    /\ unicode_isspace sp1 = true /\ unicode_isspace sp2 = true
    /\ In a (str_of_string "APap") /\ In m (str_of_string "Mm").

(** [s] is the message [b] as it stands in a transcript, followed by [rest]:
    timestamp, blank, dash, blank, label, colon, blank, body. *)
Definition headed (b : Block) (rest s : str) : Prop :=
  exists sp1 sp2 sp3,
    unicode_isspace sp1 = true /\ unicode_isspace sp2 = true
    /\ unicode_isspace sp3 = true
    /\ s = b_stamp b ++ sp1 :: ch "-" :: sp2 :: b_label b
                     ++ ch ":" :: sp3 :: b_body b ++ rest.

(** No line break of [body] is followed by the prefix of a message, [rest]
    being the text after the body. Only the positions right after a line
    break are constrained. *)
Definition continues (body rest : str) : Prop :=
  forall b1 b2, body = b1 ++ LF :: b2 -> starts_message (b2 ++ rest) = false.

(** [transcript bs s]: the text [s] is the messages [bs] one after the
    other, a line break between two of them. After the last body the text
    ends, or ends with one more line break; a last body that is followed by
    nothing does not itself end in a line break (that line break would be
    the one that ends the text). *)
Inductive transcript : list Block -> str -> Prop :=
| transcript_last (b : Block) (final s : str) :
    written_stamp (b_stamp b) -> ~ In (ch ":") (b_label b) ->
    continues (b_body b) final ->
    (final = [] /\ (forall b', b_body b <> b' ++ [LF])) \/ final = [LF] ->
    headed b final s ->
    transcript [b] s
| transcript_next (b : Block) (bs : list Block) (rest s : str) :
    written_stamp (b_stamp b) -> ~ In (ch ":") (b_label b) ->
    continues (b_body b) (LF :: rest) ->
    transcript bs rest ->
    headed b (LF :: rest) s ->
    transcript (b :: bs) s.

End Written.

Section Stamps.

Context {P : Platform}.

Import Re Patterns.

Lemma ms_digit_yes (y : char) (s : str) (c : caps) :
  unicode_isdecimal y = true -> ms dotall digit (y :: s) c = [(s, c)].
Proof.
  intros H. cbn [ms digit existsb item_mem category_mem xorb]. rewrite H. reflexivity.
Qed.

Lemma ms_digit_no (y : char) (s : str) (c : caps) :
  unicode_isdecimal y = false -> ms dotall digit (y :: s) c = [].
Proof.
  intros H. cbn [ms digit existsb item_mem category_mem xorb]. rewrite H. reflexivity.
Qed.

Lemma decimal_is_not (x d : char) :
  unicode_isdecimal x = false -> unicode_isdecimal d = true -> d <> x.
Proof. intros Hx Hd ->. congruence. Qed.

Lemma ms_concat (a b : regex) (s : str) (c : caps) :
  ms dotall (Concat a b) s c
  = flat_map (fun p => ms dotall b (fst p) (snd p)) (ms dotall a s c).
Proof. reflexivity. Qed.

Lemma ms_digits (lo hi : nat) (s : str) (c : caps) :
  ms dotall (digits lo hi) s c = repeat_ms (ms dotall digit) true lo hi s c.
Proof. reflexivity. Qed.

Ltac run_digits :=
  repeat first
    [ rewrite ms_digit_yes by assumption
    | rewrite ms_digit_no by assumption
    | rewrite ms_literal_cons
    | rewrite ms_literal_other by (apply decimal_is_not; assumption)
    | progress cbn [repeat_ms Nat.ltb Nat.leb Nat.eqb pred flat_map fst snd app] ].

(** One or two digits, then a character that is no digit. *)
Lemma ms_digits_1_2 (ds : str) (x : char) (r : regex) (s : str) (c : caps) :
  decimals 1 2 ds -> unicode_isdecimal x = false ->
  ms dotall (Concat (digits 1 2) (Concat (Literal x) r)) (ds ++ x :: s) c
  = ms dotall r s c.
Proof.
  intros [Hlen Hds] Hx. rewrite ms_concat, ms_digits.
  destruct ds as [|d1 [|d2 [|d3 ds]]]; simpl in Hlen; try lia.
  - inversion Hds as [|? ? H1 _]; subst. cbn [app]. run_digits.
    apply app_nil_r.
  - inversion Hds as [|? ? H1 Hds']; subst. inversion Hds' as [|? ? H2 _]; subst.
    cbn [app]. run_digits. apply app_nil_r.
Qed.

(** Two to four digits, then a character that is no digit. *)
Lemma ms_digits_2_4 (ds : str) (x : char) (r : regex) (s : str) (c : caps) :
  decimals 2 4 ds -> unicode_isdecimal x = false ->
  ms dotall (Concat (digits 2 4) (Concat (Literal x) r)) (ds ++ x :: s) c
  = ms dotall r s c.
Proof.
  intros [Hlen Hds] Hx. rewrite ms_concat, ms_digits.
  destruct ds as [|d1 [|d2 [|d3 [|d4 [|d5 ds]]]]]; simpl in Hlen; try lia.
  - inversion Hds as [|? ? H1 Hds']; subst. inversion Hds' as [|? ? H2 _]; subst.
    cbn [app]. run_digits. apply app_nil_r.
  - inversion Hds as [|? ? H1 Hds1]; subst. inversion Hds1 as [|? ? H2 Hds2]; subst.
    inversion Hds2 as [|? ? H3 _]; subst.
    cbn [app]. run_digits. apply app_nil_r.
  - inversion Hds as [|? ? H1 Hds1]; subst. inversion Hds1 as [|? ? H2 Hds2]; subst.
    inversion Hds2 as [|? ? H3 Hds3]; subst. inversion Hds3 as [|? ? H4 _]; subst.
    cbn [app]. run_digits. apply app_nil_r.
Qed.

(** Exactly two digits. *)
Lemma ms_digits_2_2 (ds : str) (r : regex) (s : str) (c : caps) :
  decimals 2 2 ds ->
  ms dotall (Concat (digits 2 2) r) (ds ++ s) c = ms dotall r s c.
Proof.
  intros [Hlen Hds]. rewrite ms_concat, ms_digits.
  destruct ds as [|d1 [|d2 [|d3 ds]]]; simpl in Hlen; try lia.
  inversion Hds as [|? ? H1 Hds']; subst. inversion Hds' as [|? ? H2 _]; subst.
  cbn [app]. run_digits. apply app_nil_r.
Qed.

Lemma ms_space_other (r : regex) (y : char) (s : str) (c : caps) :
  unicode_isspace y = false -> ms dotall (Concat space r) (y :: s) c = [].
Proof.
  intros H. cbn [ms space existsb item_mem category_mem xorb].
  rewrite H. reflexivity.
Qed.

Lemma space_is_not_colon (sp : char) : unicode_isspace sp = true -> sp <> ch ":".
Proof. intros H ->. discriminate H. Qed.

(** The seconds, when they are written, and the white space after the
    time. *)
Lemma ms_seconds (sec : str) (sp : char) (r : regex) (s : str) (c : caps) :
  sec = [] \/ (exists ss, sec = ch ":" :: ss /\ decimals 2 2 ss) ->
  unicode_isspace sp = true ->
  ms dotall (Concat (Max_Repeat 0 (Some 1) (seq_of [Literal (ch ":"); digits 2 2]))
                    (Concat space r))
     (sec ++ sp :: s) c
  = ms dotall r s c.
Proof.
  intros Hsec Hsp. rewrite ms_concat.
  change (ms dotall (Max_Repeat 0 (Some 1) (seq_of [Literal (ch ":"); digits 2 2]))
             (sec ++ sp :: s) c)
    with (repeat_ms (ms dotall (Concat (Literal (ch ":")) (Concat (digits 2 2) Empty)))
                    true 0 1 (sec ++ sp :: s) c).
  cbn [repeat_ms Nat.ltb Nat.leb].
  destruct Hsec as [-> | [ss [-> Hss]]]; cbn [app].
  - rewrite (ms_literal_other _ _ _ _ _ (space_is_not_colon _ Hsp)).
    cbn [flat_map app fst snd]. rewrite (ms_space_cons _ _ _ _ Hsp). apply app_nil_r.
  - rewrite ms_literal_cons, (ms_digits_2_2 _ _ _ _ Hss).
    change (ms dotall Empty (sp :: s) c) with [(sp :: s, c)].
    cbn [repeat_ms flat_map app fst snd Nat.eqb pred].
    rewrite (ms_space_cons _ _ _ _ Hsp), ms_space_other by reflexivity.
    rewrite !app_nil_r. reflexivity.
Qed.

Lemma ms_one_of (letters : string) (a : char) (r : regex) (s : str) (c : caps) :
  List.In a (str_of_string letters) ->
  ms dotall (Concat (one_of letters) r) (a :: s) c = ms dotall r s c.
Proof.
  intros H. cbn [ms one_of xorb].
  assert (E : existsb (item_mem a) (map Set_Literal (str_of_string letters)) = true).
  { apply existsb_exists. exists (Set_Literal a). split.
    - apply in_map. exact H.
    - apply N.eqb_refl. }
  rewrite E. cbn [flat_map fst snd]. apply app_nil_r.
Qed.

(** The timestamp part of the pattern reads a written timestamp in one way
    only, whatever follows it. *)
Lemma ms_written_stamp (st rest : str) (c : caps) :
  written_stamp st ->
  ms dotall (seq_of stamp_items) (st ++ rest) c = [(rest, c)].
Proof.
  intros [mo [dd [yy [hh [mi [sec [sp1 [sp2 [a [m H]]]]]]]]]].
  destruct H as [-> [Hmo [Hdd [Hyy [Hhh [Hmi [Hsec [H1 [H2 [Ha Hm]]]]]]]]]].
  cbn [seq_of fold_right stamp_items].
  repeat (rewrite <- app_assoc; cbn [app]).
  rewrite (ms_digits_1_2 _ (ch "/") _ _ _ Hmo eq_refl).
  rewrite (ms_digits_1_2 _ (ch "/") _ _ _ Hdd eq_refl).
  rewrite (ms_digits_2_4 _ (ch ",") _ _ _ Hyy eq_refl).
  rewrite (ms_space_cons _ _ _ _ H1).
  rewrite (ms_digits_1_2 _ (ch ":") _ _ _ Hhh eq_refl).
  rewrite (ms_digits_2_2 _ _ _ _ Hmi).
  rewrite (ms_seconds _ _ _ _ _ Hsec H2).
  rewrite (ms_one_of _ _ _ _ _ Ha), (ms_one_of _ _ _ _ _ Hm).
  reflexivity.
Qed.

Lemma after_written_stamp (st rest : str) :
  written_stamp st -> after_stamp (st ++ rest) = Some rest.
Proof.
  intros H. unfold after_stamp. rewrite (ms_written_stamp _ _ _ H). reflexivity.
Qed.

Lemma flat_map_flat_map {A B C} (f : A -> list B) (g : B -> list C) (l : list A) :
  flat_map g (flat_map f l) = flat_map (fun x => flat_map g (f x)) l.
Proof.
  induction l as [|x l IH]; [reflexivity|].
  simpl. rewrite flat_map_app, IH. reflexivity.
Qed.

Lemma ms_seq_app (a b : list regex) (s : str) (c : caps) :
  ms dotall (seq_of (a ++ b)) s c
  = flat_map (fun p => ms dotall (seq_of b) (fst p) (snd p)) (ms dotall (seq_of a) s c).
Proof.
  revert s c. induction a as [|x a IH]; intros s c.
  - cbn [app seq_of fold_right ms flat_map fst snd]. rewrite app_nil_r. reflexivity.
  - cbn [app seq_of fold_right]. fold (seq_of (a ++ b)). fold (seq_of a).
    rewrite !ms_concat, flat_map_flat_map.
    apply flat_map_ext_in. intros p _. apply IH.
Qed.

(** A written timestamp, a blank, a dash and a blank are the prefix of a
    message. *)
Lemma written_starts_message (st rest : str) (sp1 sp2 : char) :
  written_stamp st -> unicode_isspace sp1 = true -> unicode_isspace sp2 = true ->
  starts_message (st ++ sp1 :: ch "-" :: sp2 :: rest) = true.
Proof.
  intros H H1 H2. unfold starts_message.
  rewrite ms_seq_app, (ms_written_stamp _ _ _ H).
  cbn [flat_map fst snd dash_items seq_of fold_right app].
  rewrite (ms_space_cons _ _ _ _ H1). rewrite ms_literal_cons.
  rewrite (ms_space_cons _ _ _ _ H2). reflexivity.
Qed.

(** What does not begin with a digit is no prefix of a message. *)
Lemma not_a_digit_starts_nothing (y : char) (s : str) :
  unicode_isdecimal y = false -> starts_message (y :: s) = false.
Proof.
  intros H. unfold starts_message.
  cbn [app stamp_items seq_of fold_right].
  rewrite ms_concat, ms_digits.
  cbn [repeat_ms Nat.ltb Nat.leb]. rewrite (ms_digit_no _ _ _ H). reflexivity.
Qed.

End Stamps.

(** ** Reading a transcript *)

Section RoundTrip.

Context {P : Platform}.

Lemma stamp_needs_a_digit (y : char) (s : str) (c : list (nat * str)) :
  Re.unicode_isdecimal y = false ->
  Re.ms Patterns.dotall (Patterns.seq_of Patterns.stamp_items) (y :: s) c = [].
Proof.
  intros H. cbn [Patterns.stamp_items Patterns.seq_of fold_right].
  rewrite ms_concat, ms_digits.
  cbn [Re.repeat_ms Nat.ltb Nat.leb]. rewrite (ms_digit_no _ _ _ H). reflexivity.
Qed.

Lemma no_match_at_non_digit (y : char) (s : str) :
  Re.unicode_isdecimal y = false -> Re.match_at Patterns.PRIMARY (y :: s) = None.
Proof.
  intros H. unfold Re.match_at. cbn [Re.pat_flags Re.pat_regex Patterns.PRIMARY].
  rewrite primary_regex_shape, ms_concat.
  change (Re.ms Patterns.dotall (Re.Subpattern 1 (Patterns.seq_of Patterns.stamp_items))
                (y :: s) [])
    with (map (fun p : str * list (nat * str) =>
                 (fst p, (1, Re.taken (y :: s) (fst p)) :: snd p))
              (Re.ms Patterns.dotall (Patterns.seq_of Patterns.stamp_items) (y :: s) [])).
  rewrite (stamp_needs_a_digit _ _ _ H). reflexivity.
Qed.

(** One round of the [findall] loop. *)
Lemma findall_loop_step (f : nat) (p : Re.Pattern) (s : str) :
  Re.findall_loop (S f) p s
  = match Re.search p s with
    | None => inr []
    | Some (start, rest, c) =>
      if length rest <? length start
      then Re.pbind (Re.findall_loop f p rest)
                    (fun more => inr (Re.match_groups p start rest c :: more))
      else inl Re.NotModelled
    end.
Proof. reflexivity. Qed.

(** A character at which no message can start is passed over. *)
Lemma pattern_findall_skip (y : char) (s : str) :
  Re.match_at Patterns.PRIMARY (y :: s) = None ->
  Re.pattern_findall Patterns.PRIMARY (y :: s) = Re.pattern_findall Patterns.PRIMARY s.
Proof.
  intros H. unfold Re.pattern_findall. cbn [length].
  rewrite (findall_loop_step (S (length s)) Patterns.PRIMARY (y :: s)).
  rewrite (findall_loop_step (length s) Patterns.PRIMARY s).
  rewrite (search_unfold Patterns.PRIMARY (y :: s)), H.
  destruct (Re.search Patterns.PRIMARY s) as [[[start rest] c]|] eqn:E; [|reflexivity].
  apply search_some in E. destruct E as [Hm [before Heq]].
  pose proof (match_at_lt Patterns.PRIMARY _ _ _ eq_refl Hm) as Hlt.
  assert (length rest < length s) as Hrest by (rewrite Heq, length_app; lia).
  rewrite (findall_loop_fuel Patterns.PRIMARY eq_refl (S (length s)) (length s) rest)
    by lia.
  reflexivity.
Qed.

Lemma pattern_findall_nil : Re.pattern_findall Patterns.PRIMARY [] = inr [].
Proof. reflexivity. Qed.

(** After the last message nothing is found, with or without a line break
    at the end of the text. *)
Lemma pattern_findall_final (final : str) :
  final = [] \/ final = [LF] -> Re.pattern_findall Patterns.PRIMARY final = inr [].
Proof.
  intros [-> | ->]; [reflexivity|].
  rewrite pattern_findall_skip by (apply no_match_at_non_digit; reflexivity).
  reflexivity.
Qed.

Lemma lookahead_at_final (final : str) :
  final = [] \/ final = [LF] -> lookahead_at final = true.
Proof.
  intros [-> | ->]; [reflexivity|].
  rewrite lookahead_at_cons, N.eqb_refl. apply orb_true_r.
Qed.

Lemma transcript_starts_message (bs : list Block) (s : str) :
  transcript bs s -> starts_message s = true.
Proof.
  intros H.
  inversion H as [b final s' Hst _ _ _ Hh | b bs' rest s' Hst _ _ _ Hh]; subst;
    destruct Hh as [sp1 [sp2 [sp3 [H1 [H2 [_ ->]]]]]];
    apply written_starts_message; assumption.
Qed.

(** The message at the head of a text is one match with its whole body. *)
Lemma headed_block (b : Block) (rest s : str) :
  written_stamp (b_stamp b) -> ~ In (ch ":") (b_label b) ->
  headed b rest s ->
  (forall b1 b2, b_body b = b1 ++ b2 -> b2 <> [] -> lookahead_at (b2 ++ rest) = false) ->
  lookahead_at rest = true ->
  Re.pattern_findall Patterns.PRIMARY s
  = match Re.pattern_findall Patterns.PRIMARY rest with
    | inr more => inr (fields b :: more)
    | inl e => inl e
    end.
Proof.
  intros Hst Hlabel [sp1 [sp2 [sp3 [H1 [H2 [H3 ->]]]]]] Hin Hend.
  destruct (match_at_block (b_stamp b) (b_label b) (b_body b) rest sp1 sp2 sp3)
    as [c [Hm Hg]]; try assumption.
  - apply after_written_stamp. exact Hst.
  - rewrite (findall_block _ _ _ Hm), Hg. reflexivity.
Qed.

(** [findall] on a transcript returns its messages. *)
Lemma transcript_findall (bs : list Block) (s : str) :
  transcript bs s -> Re.pattern_findall Patterns.PRIMARY s = inr (map fields bs).
Proof.
  induction 1 as [b final s Hst Hlabel Hbody Hfinal Hh
                 | b bs rest s Hst Hlabel Hbody Hrest IH Hh].
  - assert (Hf : final = [] \/ final = [LF]) by tauto.
    rewrite (headed_block b final s Hst Hlabel Hh).
    + rewrite (pattern_findall_final final Hf). reflexivity.
    + intros b1 [|y b2] E Hb2; [contradiction|].
      simpl app. rewrite lookahead_at_cons.
      destruct (N.eqb_spec y LF) as [-> | Hy]; [|reflexivity].
      rewrite (Hbody b1 b2 E). simpl.
      destruct Hfinal as [[-> Hlast] | ->].
      * rewrite app_nil_r. destruct b2; [|reflexivity].
        exfalso. exact (Hlast b1 E).
      * destruct b2; reflexivity.
    + exact (lookahead_at_final final Hf).
  - rewrite (headed_block b (LF :: rest) s Hst Hlabel Hh).
    + rewrite pattern_findall_skip by (apply no_match_at_non_digit; reflexivity).
      rewrite IH. reflexivity.
    + intros b1 [|y b2] E Hb2; [contradiction|].
      simpl app. rewrite lookahead_at_cons.
      destruct (N.eqb_spec y LF) as [-> | Hy]; [|reflexivity].
      rewrite (Hbody b1 b2 E). simpl. destruct b2; reflexivity.
    + rewrite lookahead_at_cons, N.eqb_refl,
        (transcript_starts_message bs rest Hrest). reflexivity.
Qed.

Lemma transcript_not_nil (s : str) : ~ transcript [] s.
Proof. intros H. inversion H. Qed.

Lemma combine_map_r {A B C} (f : B -> C) (l : list A) :
  forall l' : list B,
    combine l (map f l') = map (fun x => (fst x, f (snd x))) (combine l l').
Proof.
  induction l as [|a l IH]; intros [|b l']; simpl; try reflexivity.
  rewrite IH. reflexivity.
Qed.

Lemma filter_map_comm {A B} (p : B -> bool) (g : A -> B) (l : list A) :
  filter p (map g l) = map g (filter (fun x => p (g x)) l).
Proof.
  induction l as [|a l IH]; simpl; [reflexivity|].
  rewrite IH. destruct (p (g a)); reflexivity.
Qed.

Lemma combine_snd {A B} (l : list A) :
  forall l' : list B, length l = length l' -> map snd (combine l l') = l'.
Proof.
  induction l as [|a l IH]; intros [|b l'] H; simpl in *; try discriminate;
    [reflexivity|].
  rewrite IH; [reflexivity | lia].
Qed.

(** The frame built from the messages of a transcript: a row for each
    message whose timestamp converts. *)
Lemma frame_of_blocks (bs : list Block) :
  frame_of (map fields bs)
  = map (fun x => record_of (fst x, b_label (snd x), b_body (snd x)))
        (filter (fun x => present (fst x))
                (combine (to_datetime (map b_stamp bs)) bs)).
Proof.
  rewrite frame_of_converted. unfold converted.
  rewrite map_map. cbn [fields nth]. rewrite combine_map_r.
  rewrite filter_map_comm, map_map. reflexivity.
Qed.

End RoundTrip.


(** A message of two lines, the second of which begins with a date that is
    no timestamp and quotes a whole message prefix further on; one more
    message; a line break at the end. *)
Definition two_line_body : str :=
  str_of_string "line one" ++ [LF] ++
  str_of_string "1/2/23 was fine, 1/2/23, 9:06 AM - Bob: said so".

Definition two_line_blocks : list Block :=
  [ mkBlock (str_of_string "1/2/23, 9:05 AM") (str_of_string "Alice") two_line_body;
    mkBlock (str_of_string "1/2/23, 9:07 AM") (str_of_string "Carol")
            (str_of_string "next") ].

Definition two_line_upload : bytes :=
  bytes_of_string "1/2/23, 9:05 AM - Alice: line one" ++ [x0a] ++
  bytes_of_string "1/2/23 was fine, 1/2/23, 9:06 AM - Bob: said so" ++ [x0a] ++
  bytes_of_string "1/2/23, 9:07 AM - Carol: next" ++ [x0a].


(** The frame for this upload, computed: two rows, the first with both lines
    of its body. *)
Example two_line_upload_messages :
  map message (sample_frame two_line_upload) = [two_line_body; str_of_string "next"]
  /\ map user (sample_frame two_line_upload)
     = [str_of_string "Alice"; str_of_string "Carol"].
Proof. vm_compute. split; reflexivity. Qed.

(** * The analyses of [analyzer.py] *)

(** ** Dictionaries

    A Python [dict] keeps its keys in insertion order: a list of pairs. *)

Section Dict.

Variables K V : Type.
Variable eqb : K -> K -> bool.

(** [d.get(k)]. *)
Fixpoint dict_get (d : list (K * V)) (k : K) : option V :=
  match d with
  | [] => None
  | (k', v) :: d' => if eqb k' k then Some v else dict_get d' k
  end.

(** [k in d]. *)
Definition dict_mem (d : list (K * V)) (k : K) : bool :=
  match dict_get d k with
  | Some _ => true
  | None => false
  end.

(** [d[k] = v]: the value of a key that is there is replaced in place, a new
    key goes last. *)
Fixpoint dict_set (d : list (K * V)) (k : K) (v : V) : list (K * V) :=
  match d with
  | [] => [(k, v)]
  | (k', v') :: d' =>
    if eqb k' k then (k', v) :: d' else (k', v') :: dict_set d' k v
  end.

(** [dict(pairs)]. *)
Definition dict_of (pairs : list (K * V)) : list (K * V) :=
  fold_left (fun d kv => dict_set d (fst kv) (snd kv)) pairs [].

(** The pairs [(k, d[k])] for [k] in [ks]; [None] is the [KeyError] of a
    subscript whose key is missing. *)
Fixpoint subscripts (d : list (K * V)) (ks : list K) : option (list (K * V)) :=
  match ks with
  | [] => Some []
  | k :: ks' =>
    match dict_get d k with
    | None => None
    | Some v => option_map (cons (k, v)) (subscripts d ks')
    end
  end.

(** [{k: d[k] for k in ks}]. *)
Definition comprehension (d : list (K * V)) (ks : list K) : option (list (K * V)) :=
  option_map dict_of (subscripts d ks).

End Dict.

Arguments dict_get {K V}.
Arguments dict_mem {K V}.
Arguments dict_set {K V}.
Arguments dict_of {K V}.
Arguments subscripts {K V}.
Arguments comprehension {K V}.

(** ** [get_time_analysis] *)

Section GroupBy.

Variable K : Type.
Variable leb : K -> K -> bool.
Variable eqb : K -> K -> bool.
Variable col : MessageRecord -> option K.

(** The values of a column, missing ones left out. *)
Definition values_of (df : DataFrame) : list K :=
  flat_map (fun r => match col r with Some k => [k] | None => [] end) df.

(** [df[col] == k], row by row. *)
Definition has (k : K) (r : MessageRecord) : bool :=
  match col r with
  | Some k' => eqb k' k
  | None => false
  end.

(** [df.groupby(col).size().reset_index(name='count')]: one line for each value
    of the column, in ascending order, with the number of rows that have it;
    a row in which the column is missing is in no group. *)
Definition groupby_size (df : DataFrame) : list (K * nat) :=
  map (fun k => (k, length (filter (has k) df)))
      (sorted leb (unique eqb (values_of df))).

(** [for k in ks: if k not in d: d[k] = 0]. *)
Definition fill_missing (ks : list K) (d : list (K * nat)) : list (K * nat) :=
  fold_left (fun d k => if dict_mem eqb d k then d else dict_set eqb d k 0) ks d.

End GroupBy.

Arguments values_of {K}.
Arguments has {K}.
Arguments groupby_size {K}.
Arguments fill_missing {K}.

(** [range(n)]. *)
Definition range (n : nat) : list Z := map Z.of_nat (seq 0 n).

(** Line 104. *)
Definition days_order : list string :=
  ["Monday"; "Tuesday"; "Wednesday"; "Thursday"; "Friday"; "Saturday"; "Sunday"]%string.

(** Lines 116-117. *)
Definition months_order : list string :=
  ["January"; "February"; "March"; "April"; "May"; "June";
   "July"; "August"; "September"; "October"; "November"; "December"]%string.

(** Lines 87-131. The three dictionaries are returned with their keys in
    insertion order; [None] stands for a [KeyError]. *)
Definition get_time_analysis (df : option DataFrame)
  : option (list (Z * nat) * list (string * nat) * list (string * nat)) :=
  match df with
  | None => Some ([], [], [])
  | Some df =>
    if is_empty df then Some ([], [], [])
    else
      let hourly_messages := groupby_size Z.leb Z.eqb hour df in
      let hourly_dict :=
        dict_of Z.eqb (combine (map fst hourly_messages) (map snd hourly_messages)) in
      let hourly_dict := fill_missing Z.eqb (range 24) hourly_dict in
      match comprehension Z.eqb hourly_dict (sorted Z.leb (map fst hourly_dict)) with
      | None => None
      | Some hourly_dict =>
        let daily_messages := groupby_size String.leb String.eqb day df in
        let daily_dict :=
          dict_of String.eqb (combine (map fst daily_messages) (map snd daily_messages)) in
        let daily_dict := fill_missing String.eqb days_order daily_dict in
        match comprehension String.eqb daily_dict
                (filter (dict_mem String.eqb daily_dict) days_order) with
        | None => None
        | Some daily_dict =>
          let monthly_messages := groupby_size String.leb String.eqb month df in
          let monthly_dict :=
            dict_of String.eqb
                    (combine (map fst monthly_messages) (map snd monthly_messages)) in
          let monthly_dict := fill_missing String.eqb months_order monthly_dict in
          match comprehension String.eqb monthly_dict
                  (filter (dict_mem String.eqb monthly_dict) months_order) with
          | None => None
          | Some monthly_dict => Some (hourly_dict, daily_dict, monthly_dict)
          end
        end
      end
  end.

(** ** [get_emoji_analysis] *)

(** [collections.Counter(xs)]: each element with the number of times it
    occurs, in order of first occurrence. *)
Definition Counter {K : Type} (eqb : K -> K -> bool) (xs : list K) : list (K * nat) :=
  fold_left (fun d x =>
               dict_set eqb d x (match dict_get eqb d x with
                                 | Some n => n
                                 | None => 0
                                 end + 1))
            xs [].

(** [Counter.most_common(n)], that is
    [sorted(c.items(), key=itemgetter(1), reverse=True)[:n]]: the sort is
    stable, entries with the same count stay in the order of the counter. *)
Definition most_common {K : Type} (n : nat) (c : list (K * nat)) : list (K * nat) :=
  firstn n (sorted (fun x y => snd y <=? snd x) c).

(** Lines 133-161. A frame of this development always has its [emojis]
    column. *)
Definition get_emoji_analysis (df : option DataFrame)
  : list (char * nat) * list (str * list (char * nat)) :=
  match df with
  | None => ([], [])
  | Some df =>
    if is_empty df then ([], [])
    else
      let all_emojis := flat_map emojis df in
      let emoji_counts := Counter N.eqb all_emojis in
      let top_emojis := dict_of N.eqb (most_common 20 emoji_counts) in
      let user_emoji_counts :=
        fold_left
          (fun counts u =>
             let user_emojis :=
               flat_map emojis (filter (fun r => str_eqb (user r) u) df) in
             dict_set str_eqb counts u
                      (if is_empty user_emojis then []
                       else dict_of N.eqb (most_common 10 (Counter N.eqb user_emojis))))
          (unique str_eqb (map user df)) [] in
      (top_emojis, user_emoji_counts)
  end.

(** ** Facts on dictionaries *)

Section DictFacts.

Variables K V : Type.
Variable eqb : K -> K -> bool.
Hypothesis eqb_eq : forall x y, eqb x y = true <-> x = y.

Lemma key_eqb_same (x : K) : eqb x x = true.
Proof. apply eqb_eq. reflexivity. Qed.

Lemma key_eqb_other (x y : K) : x <> y -> eqb x y = false.
Proof.
  intros H. destruct (eqb x y) eqn:E; [|reflexivity].
  apply eqb_eq in E. contradiction.
Qed.

Lemma dict_get_None (d : list (K * V)) (k : K) :
  dict_get eqb d k = None <-> ~ In k (map fst d).
Proof.
  induction d as [|[k' v] d IH]; simpl.
  - split; [intros _ [] | reflexivity].
  - destruct (eqb k' k) eqn:E.
    + apply eqb_eq in E. subst k'.
      split; [discriminate | intros H; exfalso; apply H; left; reflexivity].
    + rewrite IH. split.
      * intros H [-> | H']; [rewrite key_eqb_same in E; discriminate | auto].
      * intros H H'. apply H. right. exact H'.
Qed.

Lemma dict_get_Some_In (d : list (K * V)) (k : K) (v : V) :
  dict_get eqb d k = Some v -> In (k, v) d.
Proof.
  induction d as [|[k' v'] d IH]; simpl; [discriminate|].
  destruct (eqb k' k) eqn:E.
  - apply eqb_eq in E. subst k'. intros H. injection H as ->. left. reflexivity.
  - intros H. right. exact (IH H).
Qed.

Lemma dict_get_In (d : list (K * V)) (k : K) (v : V) :
  NoDup (map fst d) -> In (k, v) d -> dict_get eqb d k = Some v.
Proof.
  induction d as [|[k' v'] d IH]; simpl; intros Hn Hin; [contradiction|].
  inversion Hn as [|? ? Hk Hd]; subst.
  destruct Hin as [E | Hin].
  - injection E as -> ->. rewrite key_eqb_same. reflexivity.
  - destruct (eqb k' k) eqn:E; [|exact (IH Hd Hin)].
    apply eqb_eq in E. subst k'. exfalso. apply Hk.
    exact (in_map fst _ _ Hin).
Qed.

Lemma dict_set_fresh (d : list (K * V)) (k : K) (v : V) :
  dict_get eqb d k = None -> dict_set eqb d k v = d ++ [(k, v)].
Proof.
  induction d as [|[k' v'] d IH]; simpl; [reflexivity|].
  destruct (eqb k' k); [discriminate|].
  intros H. rewrite (IH H). reflexivity.
Qed.

Lemma dict_get_set (d : list (K * V)) (k : K) (v : V) (k' : K) :
  dict_get eqb (dict_set eqb d k v) k'
  = if eqb k k' then Some v else dict_get eqb d k'.
Proof.
  induction d as [|[k0 v0] d IH]; simpl; [reflexivity|].
  destruct (eqb k0 k) eqn:E; simpl.
  - apply eqb_eq in E. subst k0. destruct (eqb k k'); reflexivity.
  - rewrite IH. destruct (eqb k0 k') eqn:E'; [|reflexivity].
    apply eqb_eq in E'. subst k0.
    destruct (eqb k k') eqn:E2; [|reflexivity].
    apply eqb_eq in E2. subst k'. rewrite key_eqb_same in E. discriminate.
Qed.

Lemma dict_set_keys (d : list (K * V)) (k : K) (v : V) :
  map fst (dict_set eqb d k v)
  = if dict_mem eqb d k then map fst d else map fst d ++ [k].
Proof.
  unfold dict_mem. induction d as [|[k0 v0] d IH]; simpl; [reflexivity|].
  destruct (eqb k0 k); simpl; [reflexivity|].
  rewrite IH. destruct (dict_get eqb d k); reflexivity.
Qed.

Lemma dict_set_NoDup (d : list (K * V)) (k : K) (v : V) :
  NoDup (map fst d) -> NoDup (map fst (dict_set eqb d k v)).
Proof.
  intros H. rewrite dict_set_keys. unfold dict_mem.
  destruct (dict_get eqb d k) eqn:E; [exact H|].
  apply dict_get_None in E.
  apply NoDup_app; [exact H | constructor; [intros [] | constructor] |].
  intros a Ha [<- | []]. contradiction.
Qed.

(** Setting keys that are new and distinct appends them in order. *)
Lemma fold_dict_set (X : Type) (key : X -> K) (val : X -> V) (xs : list X) :
  forall acc, NoDup (map fst acc ++ map key xs) ->
    fold_left (fun d x => dict_set eqb d (key x) (val x)) xs acc
    = acc ++ map (fun x => (key x, val x)) xs.
Proof.
  induction xs as [|x xs IH]; intros acc Hn; simpl.
  - rewrite app_nil_r. reflexivity.
  - assert (Hx : dict_get eqb acc (key x) = None).
    { apply dict_get_None. intros Hin.
      simpl in Hn. apply NoDup_remove_2 in Hn. apply Hn.
      apply in_or_app. left. exact Hin. }
    rewrite (dict_set_fresh _ _ _ Hx), IH.
    + rewrite <- app_assoc. reflexivity.
    + rewrite map_app, <- app_assoc. exact Hn.
Qed.

Lemma dict_of_distinct (pairs : list (K * V)) :
  NoDup (map fst pairs) -> dict_of eqb pairs = pairs.
Proof.
  intros H. unfold dict_of.
  rewrite (fold_dict_set (K * V) fst snd pairs []); [|exact H].
  simpl. rewrite <- (map_id pairs) at 2. apply map_ext. intros [k v]. reflexivity.
Qed.

Lemma subscripts_map (d : list (K * V)) (ks : list K) (f : K -> V) :
  (forall k, In k ks -> dict_get eqb d k = Some (f k)) ->
  subscripts eqb d ks = Some (map (fun k => (k, f k)) ks).
Proof.
  induction ks as [|k ks IH]; intros H; simpl; [reflexivity|].
  rewrite (H k (or_introl eq_refl)), IH; [reflexivity|].
  intros k' Hk'. apply H. right. exact Hk'.
Qed.

Lemma dict_get_table (ks : list K) (f : K -> V) (k : K) :
  In k ks -> dict_get eqb (map (fun k => (k, f k)) ks) k = Some (f k).
Proof.
  induction ks as [|k0 ks IH]; simpl; [contradiction|].
  destruct (eqb k0 k) eqn:E.
  - apply eqb_eq in E. subst k0. reflexivity.
  - intros [-> | H]; [rewrite key_eqb_same in E; discriminate | exact (IH H)].
Qed.

Lemma table_keys (ks : list K) (f : K -> V) : map fst (map (fun k => (k, f k)) ks) = ks.
Proof. rewrite map_map. simpl. apply map_id. Qed.

Lemma zip_columns (l : list (K * V)) : combine (map fst l) (map snd l) = l.
Proof.
  induction l as [|[k v] l IH]; simpl; [reflexivity | rewrite IH; reflexivity].
Qed.

End DictFacts.

(** ** Facts on the tables of [get_time_analysis] *)

(** The number of rows with each of the given keys, in the order of the
    keys. *)
Definition tally {K : Type} (eqb : K -> K -> bool) (col : MessageRecord -> option K)
           (keys : list K) (df : DataFrame) : list (K * nat) :=
  map (fun k => (k, length (filter (has eqb col k) df))) keys.

Section TableFacts.

Variable K : Type.
Variable leb : K -> K -> bool.
Variable eqb : K -> K -> bool.
Hypothesis eqb_eq : forall x y, eqb x y = true <-> x = y.
Variable col : MessageRecord -> option K.

Lemma values_of_In (df : DataFrame) (k : K) :
  In k (values_of col df) <-> exists r, In r df /\ col r = Some k.
Proof.
  unfold values_of. rewrite in_flat_map. split.
  - intros [r [Hr Hk]]. exists r. split; [exact Hr|].
    destruct (col r) as [k'|]; [|contradiction].
    destruct Hk as [-> | []]. reflexivity.
  - intros [r [Hr E]]. exists r. split; [exact Hr|]. rewrite E. left. reflexivity.
Qed.

Lemma no_rows (df : DataFrame) (k : K) :
  ~ In k (values_of col df) -> length (filter (has eqb col k) df) = 0.
Proof.
  intros H. induction df as [|r df IH]; [reflexivity|].
  simpl. unfold has at 1. destruct (col r) as [k'|] eqn:E.
  - rewrite key_eqb_other.
    + apply IH. intros Hin. apply H. unfold values_of. simpl.
      apply in_or_app. right. exact Hin.
    + exact eqb_eq.
    + intros ->. apply H. unfold values_of. simpl. rewrite E. left. reflexivity.
  - apply IH. intros Hin. apply H. unfold values_of. simpl. rewrite E. exact Hin.
Qed.

Lemma fill_missing_get (ks : list K) :
  forall (d : list (K * nat)) (k : K),
    dict_get eqb (fill_missing eqb ks d) k
    = match dict_get eqb d k with
      | Some v => Some v
      | None => if existsb (eqb k) ks then Some 0 else None
      end.
Proof.
  unfold fill_missing.
  induction ks as [|k0 ks IH]; intros d k; simpl.
  - destruct (dict_get eqb d k); reflexivity.
  - rewrite IH. unfold dict_mem. destruct (dict_get eqb d k0) eqn:E0.
    + destruct (dict_get eqb d k) eqn:E; [reflexivity|].
      rewrite (key_eqb_other K eqb eqb_eq k k0); [reflexivity|].
      intros ->. congruence.
    + rewrite (dict_get_set K nat eqb eqb_eq).
      destruct (eqb k0 k) eqn:E.
      * apply eqb_eq in E. subst k0. rewrite E0, (key_eqb_same K eqb eqb_eq).
        reflexivity.
      * rewrite (key_eqb_other K eqb eqb_eq k k0); [reflexivity|].
        intros ->. rewrite (key_eqb_same K eqb eqb_eq) in E. discriminate.
Qed.

Lemma fill_missing_NoDup (ks : list K) :
  forall d : list (K * nat),
    NoDup (map fst d) -> NoDup (map fst (fill_missing eqb ks d)).
Proof.
  unfold fill_missing.
  induction ks as [|k0 ks IH]; intros d H; simpl; [exact H|].
  apply IH. destruct (dict_mem eqb d k0); [exact H|].
  apply (dict_set_NoDup K nat eqb eqb_eq). exact H.
Qed.

Lemma existsb_eqb (k : K) (ks : list K) : existsb (eqb k) ks = true <-> In k ks.
Proof.
  rewrite existsb_exists. split.
  - intros [x [Hx E]]. apply eqb_eq in E. subst x. exact Hx.
  - intros H. exists k. split; [exact H | apply eqb_eq; reflexivity].
Qed.

(** The dictionary of one column before it is put in order: the groups, then
    the keys that had to be filled in. *)
Definition counted (ks : list K) (df : DataFrame) : list (K * nat) :=
  let groups := groupby_size leb eqb col df in
  fill_missing eqb ks (dict_of eqb (combine (map fst groups) (map snd groups))).

Lemma groups_NoDup (df : DataFrame) : NoDup (map fst (groupby_size leb eqb col df)).
Proof.
  unfold groupby_size. rewrite table_keys.
  apply sorted_NoDup. apply unique_NoDup. exact eqb_eq.
Qed.

Lemma counted_NoDup (ks : list K) (df : DataFrame) : NoDup (map fst (counted ks df)).
Proof.
  unfold counted. apply fill_missing_NoDup.
  rewrite zip_columns, (dict_of_distinct K nat eqb eqb_eq); apply groups_NoDup.
Qed.

Lemma counted_get (ks : list K) (df : DataFrame) (k : K) :
  dict_get eqb (counted ks df) k
  = if existsb (eqb k) (values_of col df) || existsb (eqb k) ks
    then Some (length (filter (has eqb col k) df))
    else None.
Proof.
  unfold counted. rewrite fill_missing_get.
  rewrite zip_columns, (dict_of_distinct K nat eqb eqb_eq) by apply groups_NoDup.
  destruct (existsb (eqb k) (values_of col df)) eqn:E.
  - apply existsb_eqb in E. unfold groupby_size.
    rewrite (dict_get_table K nat eqb eqb_eq); [reflexivity|].
    apply sorted_In. apply unique_In; [exact eqb_eq | exact E].
  - assert (Hk : ~ In k (values_of col df)).
    { intros H. apply existsb_eqb in H. congruence. }
    replace (dict_get eqb (groupby_size leb eqb col df) k) with (@None nat).
    + simpl. rewrite (no_rows df k Hk). reflexivity.
    + symmetry. apply (dict_get_None K nat eqb eqb_eq).
      unfold groupby_size. rewrite table_keys, sorted_In.
      rewrite (unique_In K eqb eqb_eq). exact Hk.
Qed.

Lemma counted_keys (ks : list K) (df : DataFrame) (k : K) :
  In k (map fst (counted ks df)) <-> In k (values_of col df) \/ In k ks.
Proof.
  rewrite <- (existsb_eqb k (values_of col df)), <- (existsb_eqb k ks), <- orb_true_iff.
  pose proof (counted_get ks df k) as Hg. split.
  - intros Hin.
    destruct (existsb (eqb k) (values_of col df) || existsb (eqb k) ks);
      [reflexivity|].
    apply (dict_get_None K nat eqb eqb_eq) in Hg. contradiction.
  - intros E. rewrite E in Hg.
    apply dict_get_Some_In in Hg; [|exact eqb_eq].
    exact (in_map fst _ _ Hg).
Qed.

Lemma counted_rows (ks : list K) (df : DataFrame) (k : K) :
  In k (map fst (counted ks df)) ->
  dict_get eqb (counted ks df) k = Some (length (filter (has eqb col k) df)).
Proof.
  intros H. apply counted_keys in H.
  rewrite <- (existsb_eqb k (values_of col df)), <- (existsb_eqb k ks),
    <- orb_true_iff in H.
  rewrite counted_get, H. reflexivity.
Qed.

(** Lines 101, 113 and 125 without the order of the keys: every key is looked
    up successfully. *)
Lemma counted_subscripts (ks keys : list K) (df : DataFrame) :
  NoDup keys -> (forall k, In k keys -> In k (map fst (counted ks df))) ->
  comprehension eqb (counted ks df) keys = Some (tally eqb col keys df).
Proof.
  intros Hn H. unfold comprehension, tally.
  rewrite (subscripts_map K nat eqb (counted ks df) keys
             (fun k => length (filter (has eqb col k) df))).
  - cbn [option_map]. f_equal. apply (dict_of_distinct K nat eqb eqb_eq).
    rewrite table_keys. exact Hn.
  - intros k Hk. apply counted_rows. exact (H k Hk).
Qed.

(** Lines 113 and 125: the keys that were filled in are all found again. *)
Lemma counted_in_order (ks : list K) (df : DataFrame) :
  NoDup ks ->
  comprehension eqb (counted ks df) (filter (dict_mem eqb (counted ks df)) ks)
  = Some (tally eqb col ks df).
Proof.
  intros Hn.
  assert (Hall : filter (dict_mem eqb (counted ks df)) ks = ks).
  { apply forallb_filter_id. apply forallb_forall. intros k Hk.
    unfold dict_mem. rewrite counted_rows; [reflexivity|].
    apply counted_keys. right. exact Hk. }
  rewrite Hall. apply counted_subscripts; [exact Hn|].
  intros k Hk. apply counted_keys. right. exact Hk.
Qed.

Lemma list_sum_cons (n : nat) (l : list nat) : list_sum (n :: l) = n + list_sum l.
Proof. reflexivity. Qed.

(** Every row with one of the keys is counted once. *)
Lemma tally_one_more (keys : list K) (r : MessageRecord) (df : DataFrame) (k0 : K) :
  col r = Some k0 -> NoDup keys ->
  list_sum (map snd (tally eqb col keys (r :: df)))
  = (if existsb (eqb k0) keys then 1 else 0)
    + list_sum (map snd (tally eqb col keys df)).
Proof.
  intros E. unfold tally. induction keys as [|k keys IH]; intros Hn; [reflexivity|].
  inversion Hn as [|? ? Hk Hn']; subst.
  cbn [map snd existsb]. rewrite !list_sum_cons, (IH Hn').
  cbn [filter]. unfold has at 1. rewrite E.
  destruct (eqb k0 k) eqn:Ek.
  - apply eqb_eq in Ek. subst k0.
    assert (Hno : existsb (eqb k) keys = false).
    { destruct (existsb (eqb k) keys) eqn:Ex; [|reflexivity].
      apply existsb_eqb in Ex. contradiction. }
    rewrite Hno. simpl. lia.
  - simpl. lia.
Qed.

Lemma tally_total (keys : list K) (df : DataFrame) :
  NoDup keys ->
  (forall r, In r df -> exists k, col r = Some k /\ In k keys) ->
  list_sum (map snd (tally eqb col keys df)) = length df.
Proof.
  intros Hn. induction df as [|r df IH]; intros H.
  - unfold tally. clear Hn H.
    induction keys as [|k keys IHk]; [reflexivity | exact IHk].
  - destruct (H r (or_introl eq_refl)) as [k0 [E Hk0]].
    rewrite (tally_one_more keys r df k0 E Hn).
    apply existsb_eqb in Hk0. rewrite Hk0, IH; [reflexivity|].
    intros r' Hr'. apply H. right. exact Hr'.
Qed.

Lemma tally_keys (keys : list K) (df : DataFrame) :
  map fst (tally eqb col keys df) = keys.
Proof. unfold tally. apply table_keys. Qed.

End TableFacts.

(** ** The tables of [get_time_analysis] *)

Lemma Z_leb_total (x y : Z) : (x <=? y)%Z = false -> (y <=? x)%Z = true.
Proof. intros H. apply Z.leb_le. apply Z.leb_gt in H. lia. Qed.

Lemma Z_leb_trans (x y z : Z) :
  (x <=? y)%Z = true -> (y <=? z)%Z = true -> (x <=? z)%Z = true.
Proof. rewrite !Z.leb_le. lia. Qed.

Lemma range_In (n : nat) (h : Z) : In h (range n) <-> (0 <= h < Z.of_nat n)%Z.
Proof.
  unfold range. rewrite in_map_iff. split.
  - intros [i [<- Hi]]. apply in_seq in Hi. lia.
  - intros H. exists (Z.to_nat h). split; [lia|]. apply in_seq. lia.
Qed.

Lemma range_sorted : StronglySorted Z.lt (range 24).
Proof. vm_compute. repeat constructor. Qed.

Lemma days_order_NoDup : NoDup days_order.
Proof. unfold days_order. repeat constructor; simpl; intuition discriminate. Qed.

Lemma months_order_NoDup : NoDup months_order.
Proof. unfold months_order. repeat constructor; simpl; intuition discriminate. Qed.

Lemma strictly_ascending (l : list Z) :
  StronglySorted (fun a b => (a <=? b)%Z = true /\ a <> b) l -> StronglySorted Z.lt l.
Proof.
  induction 1 as [|x l Hl IH Hx]; constructor; [exact IH|].
  apply (Forall_impl _ (P := fun b => (x <=? b)%Z = true /\ x <> b)); [|exact Hx].
  intros b [H1 H2]. apply Z.leb_le in H1. lia.
Qed.

(** Two strictly ascending lists with the same elements are the same list. *)
Lemma ascending_same (l1 : list Z) :
  forall l2, StronglySorted Z.lt l1 -> StronglySorted Z.lt l2 ->
    (forall x, In x l1 <-> In x l2) -> l1 = l2.
Proof.
  induction l1 as [|x1 l1 IH]; intros [|x2 l2] H1 H2 H.
  - reflexivity.
  - exfalso. apply (proj2 (H x2)). left. reflexivity.
  - exfalso. apply (proj1 (H x1)). left. reflexivity.
  - inversion H1 as [|? ? H1' F1]; subst. inversion H2 as [|? ? H2' F2]; subst.
    rewrite Forall_forall in F1, F2.
    assert (E : x1 = x2).
    { destruct (proj1 (H x1) (or_introl eq_refl)) as [E | Hin]; [congruence|].
      destruct (proj2 (H x2) (or_introl eq_refl)) as [E | Hin']; [congruence|].
      pose proof (F1 _ Hin'). pose proof (F2 _ Hin). lia. }
    subst x2. f_equal. apply IH; [exact H1' | exact H2' |].
    intros x. split; intros Hx.
    + destruct (proj1 (H x) (or_intror Hx)) as [E | Hin]; [|exact Hin].
      pose proof (F1 _ Hx). lia.
    + destruct (proj2 (H x) (or_intror Hx)) as [E | Hin]; [|exact Hin].
      pose proof (F2 _ Hx). lia.
Qed.

(** The keys of the hourly dictionary, in the order in which it is
    returned. *)
Notation sorted_hours ks df :=
  (sorted Z.leb (map fst (counted Z Z.leb Z.eqb hour ks df))) (only parsing).

Lemma get_time_analysis_counted (r : MessageRecord) (df : DataFrame) :
  get_time_analysis (Some (r :: df))
  = match comprehension Z.eqb (counted Z Z.leb Z.eqb hour (range 24) (r :: df))
            (sorted_hours (range 24) (r :: df)) with
    | None => None
    | Some hourly_dict =>
      match comprehension String.eqb
              (counted string String.leb String.eqb day days_order (r :: df))
              (filter (dict_mem String.eqb
                         (counted string String.leb String.eqb day days_order (r :: df)))
                      days_order) with
      | None => None
      | Some daily_dict =>
        match comprehension String.eqb
                (counted string String.leb String.eqb month months_order (r :: df))
                (filter (dict_mem String.eqb
                           (counted string String.leb String.eqb month months_order
                                    (r :: df)))
                        months_order) with
        | None => None
        | Some monthly_dict => Some (hourly_dict, daily_dict, monthly_dict)
        end
      end
    end.
Proof.
  unfold get_time_analysis, counted. cbv beta zeta.
  cbn [is_empty]. reflexivity.
Qed.

Lemma sorted_hours_ascending (ks : list Z) (df : DataFrame) :
  StronglySorted Z.lt (sorted_hours ks df).
Proof.
  apply strictly_ascending. apply sorted_strictly.
  - apply sorted_NoDup. apply counted_NoDup. exact Z.eqb_eq.
  - apply sorted_sorted; [exact Z_leb_total | exact Z_leb_trans].
Qed.

Lemma sorted_hours_In (ks : list Z) (df : DataFrame) (h : Z) :
  In h (sorted_hours ks df) <-> In h ks \/ exists r, In r df /\ hour r = Some h.
Proof.
  rewrite sorted_In, (counted_keys Z Z.leb Z.eqb Z.eqb_eq), values_of_In. tauto.
Qed.

Lemma hourly_table (ks : list Z) (df : DataFrame) :
  comprehension Z.eqb (counted Z Z.leb Z.eqb hour ks df) (sorted_hours ks df)
  = Some (tally Z.eqb hour (sorted_hours ks df) df).
Proof.
  apply (counted_subscripts Z Z.leb Z.eqb Z.eqb_eq hour).
  - apply sorted_NoDup. apply counted_NoDup. exact Z.eqb_eq.
  - intros k Hk. exact (proj1 (sorted_In Z Z.leb k _) Hk).
Qed.

Lemma time_tables (df : DataFrame) :
  df <> [] ->
  get_time_analysis (Some df)
  = Some (tally Z.eqb hour (sorted_hours (range 24) df) df,
          tally String.eqb day days_order df,
          tally String.eqb month months_order df).
Proof.
  destruct df as [|r df]; [contradiction|]. intros _.
  rewrite get_time_analysis_counted, hourly_table.
  rewrite (counted_in_order string String.leb String.eqb String.eqb_eq day)
    by exact days_order_NoDup.
  rewrite (counted_in_order string String.leb String.eqb String.eqb_eq month)
    by exact months_order_NoDup.
  reflexivity.
Qed.

Lemma hour_in_range (h : Z) : In h (range 24) <-> (0 <= h <= 23)%Z.
Proof. rewrite range_In. change (Z.of_nat 24) with 24%Z. lia. Qed.

(** X8: for a frame that is not empty, [get_time_analysis] raises no
    [KeyError] and returns three dictionaries in which every key has the
    number of rows with that hour, weekday or month: the weekdays are the seven
    names from Monday to Sunday in this order, the months the twelve names from
    January to December in this order, whatever the frame holds; the hours are
    in strictly ascending order and are the hours 0 to 23 together with any
    other value of the [hour] column. *)
Theorem time_analysis_counts_rows (df : DataFrame) :
  df <> [] ->
  exists hours,
    get_time_analysis (Some df)
    = Some (tally Z.eqb hour hours df,
            tally String.eqb day days_order df,
            tally String.eqb month months_order df)
    /\ StronglySorted Z.lt hours
    /\ forall h, In h hours
                 <-> (0 <= h <= 23)%Z \/ exists r, In r df /\ hour r = Some h.
Proof.
  intros H. exists (sorted_hours (range 24) df).
  split; [exact (time_tables df H)|].
  split; [exact (sorted_hours_ascending (range 24) df)|].
  intros h. rewrite sorted_hours_In, hour_in_range. tauto.
Qed.

Lemma time_analysis_counts_rows_witness :
  scenario_frame <> []
  /\ exists hours,
       get_time_analysis (Some scenario_frame)
       = Some (tally Z.eqb hour hours scenario_frame,
               tally String.eqb day days_order scenario_frame,
               tally String.eqb month months_order scenario_frame)
       /\ StronglySorted Z.lt hours
       /\ forall h, In h hours
                    <-> (0 <= h <= 23)%Z
                        \/ exists r, In r scenario_frame /\ hour r = Some h.
Proof.
  assert (H : scenario_frame <> []) by discriminate.
  split; [exact H | exact (time_analysis_counts_rows scenario_frame H)].
Defined.

Section ParsedChat.

Context {P : Platform}.

Lemma parsed_row_calendar (file_upload : option bytes) (df : DataFrame)
      (r : MessageRecord) :
  outcome (preprocess_chat file_upload) = inr (Some df) -> In r df ->
  exists t, valid_timestamp t /\ hour r = Some (ts_hour t)
            /\ day r = Some (ts_day_name t) /\ month r = Some (ts_month_name t).
Proof.
  intros H Hin. destruct (returned_row _ _ _ H Hin) as [t [u [m [-> Hv]]]].
  exists t. split; [exact Hv|]. repeat split; reflexivity.
Qed.

End ParsedChat.

(** X9: for the frame that [preprocess_chat] returns, if it is not empty,
    the hourly dictionary has exactly the keys 0 to 23 in this order, the
    daily one the seven weekday names and the monthly one the twelve month
    names, each key with its number of messages; and in each of the three
    dictionaries the counts add up to the number of messages: every message
    is counted once. *)
Theorem time_analysis_of_parsed_chat (P : Platform) (file_upload : option bytes)
        (df : DataFrame) :
  outcome (preprocess_chat file_upload) = inr (Some df) -> df <> [] ->
  get_time_analysis (Some df)
  = Some (tally Z.eqb hour (range 24) df,
          tally String.eqb day days_order df,
          tally String.eqb month months_order df)
  /\ list_sum (map snd (tally Z.eqb hour (range 24) df)) = length df
  /\ list_sum (map snd (tally String.eqb day days_order df)) = length df
  /\ list_sum (map snd (tally String.eqb month months_order df)) = length df.
Proof.
  intros H Hne.
  assert (Hh : sorted_hours (range 24) df = range 24).
  { apply ascending_same; [apply sorted_hours_ascending | exact range_sorted |].
    intros h. rewrite sorted_hours_In. split.
    - intros [Hr | [r [Hin E]]]; [exact Hr|].
      destruct (parsed_row_calendar _ _ _ H Hin) as [t [Hv [Eh _]]].
      pose proof (valid_hour t Hv). rewrite Eh in E. injection E as <-.
      apply hour_in_range. lia.
    - intros Hr. left. exact Hr. }
  split; [rewrite (time_tables df Hne), Hh; reflexivity|].
  split; [|split].
  - apply (tally_total Z Z.eqb Z.eqb_eq).
    + rewrite <- Hh. apply sorted_NoDup. apply counted_NoDup. exact Z.eqb_eq.
    + intros r Hin. destruct (parsed_row_calendar _ _ _ H Hin) as [t [Hv [Eh _]]].
      exists (ts_hour t). split; [exact Eh|].
      apply hour_in_range. exact (valid_hour t Hv).
  - apply (tally_total string String.eqb String.eqb_eq); [exact days_order_NoDup|].
    intros r Hin. destruct (parsed_row_calendar _ _ _ H Hin) as [t [Hv [_ [Ed _]]]].
    exists (ts_day_name t). split; [exact Ed | exact (day_name_listed t)].
  - apply (tally_total string String.eqb String.eqb_eq); [exact months_order_NoDup|].
    intros r Hin. destruct (parsed_row_calendar _ _ _ H Hin) as [t [Hv [_ [_ Em]]]].
    exists (ts_month_name t). split; [exact Em | exact (month_name_listed t Hv)].
Qed.

Lemma time_analysis_of_parsed_chat_witness :
  outcome (@preprocess_chat sample (Some scenario)) = inr (Some scenario_frame)
  /\ scenario_frame <> []
  /\ get_time_analysis (Some scenario_frame)
     = Some (tally Z.eqb hour (range 24) scenario_frame,
             tally String.eqb day days_order scenario_frame,
             tally String.eqb month months_order scenario_frame)
  /\ list_sum (map snd (tally Z.eqb hour (range 24) scenario_frame))
     = length scenario_frame
  /\ list_sum (map snd (tally String.eqb day days_order scenario_frame))
     = length scenario_frame
  /\ list_sum (map snd (tally String.eqb month months_order scenario_frame))
     = length scenario_frame.
Proof.
  assert (Hrun : outcome (@preprocess_chat sample (Some scenario))
                 = inr (Some scenario_frame)) by (vm_compute; reflexivity).
  assert (Hne : scenario_frame <> []) by discriminate.
  split; [exact Hrun|]. split; [exact Hne|].
  exact (time_analysis_of_parsed_chat sample (Some scenario) scenario_frame Hrun Hne).
Defined.

(** ** The tables of [get_emoji_analysis] *)

(** The number of times [k] occurs in [xs]. *)
Definition occurrences {K : Type} (eqb : K -> K -> bool) (k : K) (xs : list K) : nat :=
  length (filter (eqb k) xs).

(** [t] lists the most frequent elements of [xs], at most [n] of them: each
    key once, with the number of times it occurs, the counts never
    increasing; an element of [xs] is left out only when the list is full,
    and then it occurs no more often than any element that is kept. *)
Definition most_used {K : Type} (eqb : K -> K -> bool) (n : nat) (xs : list K)
           (t : list (K * nat)) : Prop :=
  length t <= n
  /\ NoDup (map fst t)
  /\ (forall k c, In (k, c) t -> c = occurrences eqb k xs /\ 1 <= c)
  /\ StronglySorted (fun a b => snd b <= snd a) t
  /\ (forall k, In k xs -> ~ In k (map fst t) ->
        length t = n
        /\ forall k' c', In (k', c') t -> occurrences eqb k xs <= c').

Section SortFacts.

Variable A : Type.
Variable leb : A -> A -> bool.

Lemma insert_Permutation (x : A) (l : list A) : Permutation (insert leb x l) (x :: l).
Proof.
  induction l as [|y l IH]; simpl; [apply Permutation_refl|].
  destruct (leb x y); [apply Permutation_refl|].
  apply (Permutation_trans (l' := y :: x :: l)); [|apply perm_swap].
  apply perm_skip. exact IH.
Qed.

Lemma sorted_Permutation (l : list A) : Permutation (sorted leb l) l.
Proof.
  induction l as [|x l IH]; simpl; [apply perm_nil|].
  apply (Permutation_trans (insert_Permutation x (sorted leb l))).
  apply perm_skip. exact IH.
Qed.

Lemma StronglySorted_app (R : A -> A -> Prop) (l1 l2 : list A) :
  StronglySorted R (l1 ++ l2) ->
  StronglySorted R l1 /\ forall x y, In x l1 -> In y l2 -> R x y.
Proof.
  induction l1 as [|a l1 IH]; simpl; intros H.
  - split; [constructor | intros x y []].
  - inversion H as [|? ? Hs Hf]; subst. destruct (IH Hs) as [H1 H2].
    rewrite Forall_forall in Hf. split.
    + constructor; [exact H1|]. apply Forall_forall. intros y Hy.
      apply Hf. apply in_or_app. left. exact Hy.
    + intros x y [<- | Hx] Hy; [|exact (H2 x y Hx Hy)].
      apply Hf. apply in_or_app. right. exact Hy.
Qed.

End SortFacts.

Section CounterFacts.

Variable K : Type.
Variable eqb : K -> K -> bool.
Hypothesis eqb_eq : forall x y, eqb x y = true <-> x = y.

Lemma occurrences_app (k : K) (l1 l2 : list K) :
  occurrences eqb k (l1 ++ l2) = occurrences eqb k l1 + occurrences eqb k l2.
Proof. unfold occurrences. rewrite filter_app, length_app. reflexivity. Qed.

Lemma occurrences_In (k : K) (xs : list K) : In k xs <-> 1 <= occurrences eqb k xs.
Proof.
  unfold occurrences. induction xs as [|x xs IH]; simpl.
  - split; [intros [] | lia].
  - destruct (eqb k x) eqn:E; simpl.
    + apply eqb_eq in E. subst x. split; [lia | left; reflexivity].
    + rewrite <- IH. split; [intros [-> | H]; [|exact H] | intros H; right; exact H].
      rewrite (key_eqb_same K eqb eqb_eq) in E. discriminate.
Qed.

(** The counter after [pre]: no key twice, each element with its count. *)
Definition counts (c : list (K * nat)) (pre : list K) : Prop :=
  NoDup (map fst c)
  /\ forall k, dict_get eqb c k
               = if occurrences eqb k pre =? 0 then None
                 else Some (occurrences eqb k pre).

Lemma counts_step (c : list (K * nat)) (pre : list K) (x : K) :
  counts c pre ->
  counts (dict_set eqb c x (match dict_get eqb c x with
                            | Some n => n
                            | None => 0
                            end + 1))
         (pre ++ [x]).
Proof.
  intros [Hn Hg]. split; [apply (dict_set_NoDup K nat eqb eqb_eq); exact Hn|].
  intros k. rewrite (dict_get_set K nat eqb eqb_eq), occurrences_app.
  assert (Hx : match dict_get eqb c x with Some n => n | None => 0 end
               = occurrences eqb x pre).
  { rewrite Hg. destruct (Nat.eqb_spec (occurrences eqb x pre) 0) as [E | E];
      [symmetry; exact E | reflexivity]. }
  rewrite Hx.
  assert (Hone : occurrences eqb k [x] = if eqb k x then 1 else 0).
  { unfold occurrences. cbn [filter]. destruct (eqb k x); reflexivity. }
  rewrite Hone.
  destruct (eqb x k) eqn:E.
  - apply eqb_eq in E. subst x. rewrite (key_eqb_same K eqb eqb_eq).
    destruct (Nat.eqb_spec (occurrences eqb k pre + 1) 0) as [E | E]; [lia | reflexivity].
  - rewrite (key_eqb_other K eqb eqb_eq k x).
    + rewrite Nat.add_0_r. apply Hg.
    + intros ->. rewrite (key_eqb_same K eqb eqb_eq) in E. discriminate.
Qed.

Lemma counts_fold (xs : list K) :
  forall (c : list (K * nat)) (pre : list K),
    counts c pre ->
    counts (fold_left (fun d x =>
                         dict_set eqb d x (match dict_get eqb d x with
                                           | Some n => n
                                           | None => 0
                                           end + 1))
                      xs c)
           (pre ++ xs).
Proof.
  induction xs as [|x xs IH]; intros c pre H; simpl.
  - rewrite app_nil_r. exact H.
  - replace (pre ++ x :: xs) with ((pre ++ [x]) ++ xs)
      by (rewrite <- app_assoc; reflexivity).
    apply IH. apply counts_step. exact H.
Qed.

Lemma Counter_counts (xs : list K) : counts (Counter eqb xs) xs.
Proof.
  unfold Counter. apply (counts_fold xs [] []).
  split; [constructor | intros k; reflexivity].
Qed.

Lemma Counter_In (xs : list K) (k : K) (n : nat) :
  In (k, n) (Counter eqb xs) <-> n = occurrences eqb k xs /\ 1 <= n.
Proof.
  destruct (Counter_counts xs) as [Hn Hg]. split.
  - intros H. apply (dict_get_In K nat eqb eqb_eq _ _ _ Hn) in H.
    rewrite Hg in H.
    destruct (Nat.eqb_spec (occurrences eqb k xs) 0) as [E | E]; [discriminate|].
    injection H as <-. split; [reflexivity | lia].
  - intros [-> H]. apply (dict_get_Some_In K nat eqb eqb_eq).
    rewrite Hg.
    destruct (Nat.eqb_spec (occurrences eqb k xs) 0) as [E | E]; [lia | reflexivity].
Qed.

Lemma by_count_total (x y : K * nat) :
  (snd y <=? snd x) = false -> (snd x <=? snd y) = true.
Proof. intros H. apply Nat.leb_le. apply Nat.leb_gt in H. lia. Qed.

Lemma by_count_trans (x y z : K * nat) :
  (snd y <=? snd x) = true -> (snd z <=? snd y) = true -> (snd z <=? snd x) = true.
Proof. rewrite !Nat.leb_le. lia. Qed.

(** The whole counter in the order of [most_common]. *)
Definition ranked (c : list (K * nat)) : list (K * nat) :=
  sorted (fun x y => snd y <=? snd x) c.

Lemma ranked_sorted (c : list (K * nat)) :
  StronglySorted (fun a b => snd b <= snd a) (ranked c).
Proof.
  unfold ranked.
  pose proof (sorted_sorted (K * nat) (fun x y => snd y <=? snd x)
                            by_count_total by_count_trans c) as H.
  induction H as [|a l Hl IH Ha]; constructor; [exact IH|].
  apply (Forall_impl _ (P := fun b => (snd b <=? snd a) = true)); [|exact Ha].
  intros b Hb. apply Nat.leb_le. exact Hb.
Qed.

Lemma most_common_most_used (n : nat) (xs : list K) :
  most_used eqb n xs (dict_of eqb (most_common n (Counter eqb xs))).
Proof.
  assert (Hkeys : NoDup (map fst (most_common n (Counter eqb xs)))).
  { unfold most_common. fold (ranked (Counter eqb xs)).
    apply (NoDup_app_remove_r _ (map fst (skipn n (ranked (Counter eqb xs))))).
    rewrite <- map_app, firstn_skipn.
    apply (Permutation_NoDup (l := map fst (Counter eqb xs))).
    - apply Permutation_map. apply Permutation_sym. apply sorted_Permutation.
    - apply Counter_counts. }
  rewrite (dict_of_distinct K nat eqb eqb_eq _ Hkeys).
  unfold most_common in *. fold (ranked (Counter eqb xs)) in *.
  pose proof (ranked_sorted (Counter eqb xs)) as Hs.
  rewrite <- (firstn_skipn n (ranked (Counter eqb xs))) in Hs.
  apply StronglySorted_app in Hs. destruct Hs as [Hs Hle].
  assert (Hin : forall k c, In (k, c) (ranked (Counter eqb xs))
                            <-> c = occurrences eqb k xs /\ 1 <= c).
  { intros k c. unfold ranked. rewrite sorted_In. apply Counter_In. }
  split; [apply firstn_le_length|]. split; [exact Hkeys|]. split; [|split].
  - intros k c H. apply Hin.
    rewrite <- (firstn_skipn n (ranked (Counter eqb xs))).
    apply in_or_app. left. exact H.
  - exact Hs.
  - intros k Hk Hout.
    assert (Hrest : In (k, occurrences eqb k xs) (skipn n (ranked (Counter eqb xs)))).
    { assert (H : In (k, occurrences eqb k xs) (ranked (Counter eqb xs))).
      { apply Hin. split; [reflexivity | apply occurrences_In; exact Hk]. }
      rewrite <- (firstn_skipn n (ranked (Counter eqb xs))) in H.
      apply in_app_or in H. destruct H as [H | H]; [|exact H].
      exfalso. apply Hout. exact (in_map fst _ _ H). }
    split.
    + apply firstn_length_le.
      destruct (Nat.le_gt_cases n (length (ranked (Counter eqb xs)))) as [H | H];
        [exact H|].
      rewrite skipn_all2 in Hrest by lia. contradiction.
    + intros k' c' H. exact (Hle _ _ H Hrest).
Qed.

End CounterFacts.

Lemma get_emoji_analysis_rows (r : MessageRecord) (df : DataFrame) :
  get_emoji_analysis (Some (r :: df))
  = (dict_of N.eqb (most_common 20 (Counter N.eqb (flat_map emojis (r :: df)))),
     fold_left
       (fun counts u =>
          dict_set str_eqb counts u
                   (if is_empty (flat_map emojis
                                          (filter (fun r => str_eqb (user r) u) (r :: df)))
                    then []
                    else dict_of N.eqb
                           (most_common 10
                              (Counter N.eqb
                                 (flat_map emojis
                                    (filter (fun r => str_eqb (user r) u) (r :: df)))))))
       (unique str_eqb (map user (r :: df))) []).
Proof.
  unfold get_emoji_analysis. cbv beta zeta. cbn [is_empty]. reflexivity.
Qed.

(** X10: the first dictionary of [get_emoji_analysis] lists the most used
    emojis of the frame, at most 20: each emoji once, with the number of times
    it occurs in the [emojis] column, the counts never increasing; an emoji
    that was used is left out only when 20 are listed, and then none of the
    20 was used less often. *)
Theorem top_emojis_are_the_most_used (df : DataFrame) :
  most_used N.eqb 20 (flat_map emojis df) (fst (get_emoji_analysis (Some df))).
Proof.
  destruct df as [|r df].
  - change (fst (get_emoji_analysis (Some [])))
      with (dict_of N.eqb (most_common 20 (Counter N.eqb (@nil N)))).
    apply (most_common_most_used N N.eqb N.eqb_eq).
  - rewrite get_emoji_analysis_rows. cbn [fst].
    apply (most_common_most_used N N.eqb N.eqb_eq).
Qed.

Lemma user_table_empty (user_emojis : list N) :
  (if is_empty user_emojis then []
   else dict_of N.eqb (most_common 10 (Counter N.eqb user_emojis)))
  = dict_of N.eqb (most_common 10 (Counter N.eqb user_emojis)).
Proof. destruct user_emojis; reflexivity. Qed.

(** X11: the second dictionary of [get_emoji_analysis] has one entry for each
    user of the frame and for no one else, and the entry of a user lists the
    most used emojis of this user's messages, at most 10, in the same way as
    the first dictionary does for the whole frame (it is empty for a user who
    sent no emoji). *)
Theorem user_emoji_tables (df : DataFrame) :
  NoDup (map fst (snd (get_emoji_analysis (Some df))))
  /\ (forall u, In u (map fst (snd (get_emoji_analysis (Some df))))
                <-> exists r, In r df /\ user r = u)
  /\ forall u t, In (u, t) (snd (get_emoji_analysis (Some df))) ->
       most_used N.eqb 10
                 (flat_map emojis (filter (fun r => str_eqb (user r) u) df)) t.
Proof.
  destruct df as [|r df].
  - split; [constructor|]. split; [|intros u t []].
    intros u. split; [intros [] | intros [r [[] _]]].
  - rewrite get_emoji_analysis_rows. cbn [snd].
    rewrite (fold_dict_set (list N) (list (N * nat)) str_eqb str_eqb_eq (list N)
               (fun u => u)
               (fun u => if is_empty (flat_map emojis
                                        (filter (fun r => str_eqb (user r) u) (r :: df)))
                         then []
                         else dict_of N.eqb
                                (most_common 10
                                   (Counter N.eqb
                                      (flat_map emojis
                                         (filter (fun r => str_eqb (user r) u)
                                                 (r :: df))))))
               (unique str_eqb (map user (r :: df))) []).
    + cbn [app]. rewrite table_keys. split; [|split].
      * apply unique_NoDup. exact str_eqb_eq.
      * intros u. rewrite (unique_In (list N) str_eqb str_eqb_eq), in_map_iff.
        split; intros [r' [H1 H2]]; exists r'; split; assumption.
      * intros u t H. apply in_map_iff in H. destruct H as [u' [E _]].
        injection E as -> <-. rewrite user_table_empty.
        apply (most_common_most_used N N.eqb N.eqb_eq).
    + cbn [map app]. rewrite map_id. apply unique_NoDup. exact str_eqb_eq.
Qed.
